(** * sqlite_to_orm: translation of a parsed SQLite schema to an ORM schema

    A shallow embedding of [src/sqlite_to_orm.py].  The parser (sqlglot) is an
    external collaborator: the translator is modelled on the values it reads
    off the parsed statements.  A Python [str] is modelled by the [string]
    of its UTF-8 bytes, [list] by [list], the [dict] of index declarations by
    a [gmap], raised exceptions by the [Raise] case of [result], and the
    output file by the writes performed on it. *)

From Stdlib Require Import Ascii String Decimal DecimalString.
From stdpp Require Import base option list strings gmap fin_maps.

Local Open Scope list_scope.
Local Open Scope nat_scope.

(** ** Strings *)

Module Py.

(** The double quote and the newline, as characters. *)
Definition DQ : string := String "034"%char EmptyString.
Definition NL : string := String "010"%char EmptyString.

(** [f'"{s}"']. *)
Definition quote (s : string) : string := DQ +:+ s +:+ DQ.

(** [sep.join(xs)]. *)
Definition join (sep : string) (xs : list string) : string :=
  String.concat sep xs.

(** [bool(xs)] of a list and of a string. *)
Definition truthy {A} (xs : list A) : bool :=
  match xs with [] => false | _ :: _ => true end.

Definition truthy_str (s : string) : bool :=
  match s with EmptyString => false | String _ _ => true end.

Definition char_between (lo hi : nat) (c : ascii) : bool :=
  (lo <=? nat_of_ascii c) && (nat_of_ascii c <=? hi).

Fixpoint all_chars (p : ascii -> bool) (s : string) : bool :=
  match s with
  | EmptyString => true
  | String c r => p c && all_chars p r
  end.

(** The bytes 128 to 191 continue a character; every other byte starts one. *)
Definition continuation (c : ascii) : bool :=
  char_between 128 191 c.

(** [len(s)]: the number of characters, counted by the bytes that start one. *)
Fixpoint len (s : string) : nat :=
  match s with
  | EmptyString => 0
  | String c r => (if continuation c then 0 else 1) + len r
  end.

(** The value of a continuation byte. *)
Definition tail_bits (c : ascii) : N := (N_of_ascii c - 128)%N.

(** The code points of a string, when its bytes are UTF-8: one to four bytes
    per character, no character written longer than needed, no surrogate,
    none above 1114111. *)
Fixpoint code_points (s : string) : option (list N) :=
  match s with
  | EmptyString => Some []
  | String c0 r0 =>
      let b0 := N_of_ascii c0 in
      if (b0 <? 128)%N then cons b0 <$> code_points r0
      else if (b0 <? 194)%N then None
      else if (b0 <? 224)%N then
        match r0 with
        | String c1 r1 =>
            if continuation c1
            then cons ((b0 - 192) * 64 + tail_bits c1)%N <$> code_points r1
            else None
        | _ => None
        end
      else if (b0 <? 240)%N then
        match r0 with
        | String c1 (String c2 r2) =>
            let cp := ((b0 - 224) * 4096 + tail_bits c1 * 64 + tail_bits c2)%N in
            if continuation c1 && continuation c2
               && (2048 <=? cp)%N && negb ((55296 <=? cp)%N && (cp <=? 57343)%N)
            then cons cp <$> code_points r2
            else None
        | _ => None
        end
      else if (b0 <? 245)%N then
        match r0 with
        | String c1 (String c2 (String c3 r3)) =>
            let cp := ((b0 - 240) * 262144 + tail_bits c1 * 4096
                       + tail_bits c2 * 64 + tail_bits c3)%N in
            if continuation c1 && continuation c2 && continuation c3
               && (65536 <=? cp)%N && (cp <=? 1114111)%N
            then cons cp <$> code_points r3
            else None
        | _ => None
        end
      else None
  end.

(** The code points [c] with [chr(c).isdigit()], as inclusive ranges
    (Unicode 14.0.0, the table of CPython 3.11). *)
Definition digit_ranges : list (N * N) :=
  [
    (48, 57); (178, 179); (185, 185); (1632, 1641); (1776, 1785);
    (1984, 1993); (2406, 2415); (2534, 2543); (2662, 2671); (2790, 2799);
    (2918, 2927); (3046, 3055); (3174, 3183); (3302, 3311); (3430, 3439);
    (3558, 3567); (3664, 3673); (3792, 3801); (3872, 3881); (4160, 4169);
    (4240, 4249); (4969, 4977); (6112, 6121); (6160, 6169); (6470, 6479);
    (6608, 6618); (6784, 6793); (6800, 6809); (6992, 7001); (7088, 7097);
    (7232, 7241); (7248, 7257); (8304, 8304); (8308, 8313); (8320, 8329);
    (9312, 9320); (9332, 9340); (9352, 9360); (9450, 9450); (9461, 9469);
    (9471, 9471); (10102, 10110); (10112, 10120); (10122, 10130);
    (42528, 42537); (43216, 43225); (43264, 43273); (43472, 43481);
    (43504, 43513); (43600, 43609); (44016, 44025); (65296, 65305);
    (66720, 66729); (68160, 68163); (68912, 68921); (69216, 69224);
    (69714, 69722); (69734, 69743); (69872, 69881); (69942, 69951);
    (70096, 70105); (70384, 70393); (70736, 70745); (70864, 70873);
    (71248, 71257); (71360, 71369); (71472, 71481); (71904, 71913);
    (72016, 72025); (72784, 72793); (73040, 73049); (73120, 73129);
    (92768, 92777); (92864, 92873); (93008, 93017); (120782, 120831);
    (123200, 123209); (123632, 123641); (125264, 125273); (127232, 127242);
    (130032, 130041)
  ]%N.

Definition is_digit_cp (cp : N) : bool :=
  existsb (fun r => (r.1 <=? cp)%N && (cp <=? r.2)%N) digit_ranges.

(** [s.isdigit()]: at least one character, and every character a digit. *)
Definition isdigit (s : string) : bool :=
  match code_points s with
  | Some (cp :: cps) => forallb is_digit_cp (cp :: cps)
  | _ => false
  end.

Definition upper (c : ascii) : ascii :=
  if char_between 97 122 c then ascii_of_nat (nat_of_ascii c - 32) else c.

Definition lower (c : ascii) : ascii :=
  if char_between 65 90 c then ascii_of_nat (nat_of_ascii c + 32) else c.

Fixpoint map_chars (f : ascii -> ascii) (s : string) : string :=
  match s with
  | EmptyString => EmptyString
  | String c r => String (f c) (map_chars f r)
  end.

(** [s.capitalize()] of an ASCII string: first character upper-cased, the
    rest lower-cased.  The bytes of other characters are left as they are,
    where Python maps the letters beyond ASCII as well. *)
Definition capitalize (s : string) : string :=
  match s with
  | EmptyString => EmptyString
  | String c r => String (upper c) (map_chars lower r)
  end.

(** [s.split(sep)] for a one-character separator; [cur] is the word being
    read, reversed. *)
Fixpoint split_aux (sep : ascii) (cur : string) (s : string) : list string :=
  match s with
  | EmptyString => [String.rev cur]
  | String c r =>
      if Ascii.eqb c sep then String.rev cur :: split_aux sep EmptyString r
      else split_aux sep (String c cur) r
  end.

Definition split (sep : ascii) (s : string) : list string :=
  split_aux sep EmptyString s.

(** [s.startswith(p)]. *)
Definition startswith (s p : string) : bool := String.prefix p s.

End Py.

Import Py.

(** ** Exceptions *)

Inductive exn : Type :=
| ValueError (msg : string)
| TypeError (msg : string).

Inductive result (A : Type) : Type :=
| Ok (a : A)
| Raise (e : exn).

Arguments Ok {A} a.
Arguments Raise {A} e.

#[global] Instance result_ret : MRet result := fun _ a => Ok a.
#[global] Instance result_bind : MBind result := fun _ _ f m =>
  match m with
  | Ok a => f a
  | Raise e => Raise e
  end.

#[global] Instance result_fmap : FMap result := fun _ _ f m =>
  match m with
  | Ok a => Ok (f a)
  | Raise e => Raise e
  end.

Definition is_ok {A} (r : result A) : bool :=
  match r with Ok _ => true | Raise _ => false end.

(** ** The parsed statements, as the translator reads them *)

(** [DataType.Type]: the seven tags of [SQL_TYPE_MAP], and any other tag. *)
Inductive TypeTag : Type :=
| VARCHAR | TEXT | SMALLINT | BIGINT | INT | DECIMAL | DATETIME
| OtherType (tag : string).

(** [col.kind]: [dt_this] is [kind.this]; [dt_expressions] holds, for each
    element [e] of [kind.expressions], the text [e.this.this]. *)
Record DataType : Type := {
  dt_this : TypeTag;
  dt_expressions : list string;
}.

(** [col_const.kind] of a column-level constraint, by its class.  The parser
    gives the class [NotNullColumnConstraint] to the constraint [NOT NULL]
    and, with its [allow_null] set, to the constraint [NULL]; line 198 tests
    the class alone. *)
Inductive ColumnConstraintKind : Type :=
| NotNullColumnConstraint
| OtherColumnConstraint.

Record ColumnDef : Type := {
  col_name : string;
  col_kind : DataType;
  col_constraints : list ColumnConstraintKind;
}.

(** [this.args["reference"]] of a foreign key: the referenced table
    [ref.this.this.this], the referenced columns and the option strings. *)
Record Reference : Type := {
  ref_table : string;
  ref_columns : list string;
  ref_options : list string;
}.

(** An element of [const.expressions].  [CheckColumnConstraint] carries the
    text of its expression; [OtherConstraintKind] is any other node. *)
Inductive ConstraintKind : Type :=
| PrimaryKey (columns : list string)
| UniqueColumnConstraint (columns : list string)
| CheckColumnConstraint (this : string)
| ForeignKey (columns : list string) (reference : Reference)
| OtherConstraintKind.

Record Constraint : Type := {
  const_name : string;
  const_expressions : list ConstraintKind;
}.

(** A sub-node of a table statement. *)
Inductive SubNode : Type :=
| NodeColumnDef (c : ColumnDef)
| NodeConstraint (c : Constraint)
| NodeOther.

(** A [CREATE TABLE] statement through the three views the translator takes
    of it: [expr.expressions], [expr.find_all(Constraint)] and
    [expr.find_all(ColumnDef)], with the table name [expr.this.this.name].
    The views are independent fields, so that the properties hold whatever
    the parser returns for each of them.  With the parser at hand the
    sub-nodes of a table are under [expr.this], and [expr.expressions] of a
    [Create] is empty. *)
Record TableStmt : Type := {
  tbl_name : string;
  tbl_expressions : list SubNode;
  tbl_constraints : list Constraint;
  tbl_columns : list ColumnDef;
}.

(** A [CREATE INDEX] statement. *)
Record IndexStmt : Type := {
  ix_name : string;
  ix_unique : bool;
  ix_table : string;
  ix_columns : list string;
}.

(** A parsed statement: a [Create] of kind TABLE or INDEX, a [Create] of
    another kind, or a node that is no [Create]. *)
Inductive Expression : Type :=
| CreateTable (t : TableStmt)
| CreateIndex (i : IndexStmt)
| CreateOther
| NotCreate.

(** ** Type mapping *)

Definition MAX_LINE_LENGTH : nat := 100.

(** The error messages that print a parsed node ([kind.expressions],
    [col.kind], [this]) keep their fixed part only. *)
Definition parse_varchar (kind : DataType) : result (string * string) :=
  match dt_expressions kind with
  | [length] =>
      if negb (isdigit length)
      then Raise (ValueError ("Invalid varchar args: " +:+ length))
      else Ok ("str", "String(" +:+ length +:+ ")")
  | _ => Raise (ValueError "Invalid varchar args: ")
  end.

Definition parse_decimal (kind : DataType) : result (string * string) :=
  match dt_expressions kind with
  | [] => Ok ("float", "")
  | [prec; scale] =>
      if negb (isdigit prec) || negb (isdigit scale)
      then Raise (ValueError ("Invalid decimal args: " +:+ prec +:+ ", " +:+ scale))
      else Ok ("float", "Numeric(" +:+ prec +:+ ", " +:+ scale +:+ ")")
  | _ => Raise (ValueError "Invalid decimal args: ")
  end.

(** A value of [SQL_TYPE_MAP]: a pair, or a function of the parsed type. *)
Inductive TypeMapping : Type :=
| Fixed (map_python map_alchemy : string)
| Callable (type_cb : DataType -> result (string * string)).

Definition SQL_TYPE_MAP (tag : TypeTag) : option TypeMapping :=
  match tag with
  | VARCHAR => Some (Callable parse_varchar)
  | TEXT => Some (Fixed "str" "Text()")
  | SMALLINT => Some (Fixed "int" "SmallInteger()")
  | BIGINT => Some (Fixed "int" "BigInteger()")
  | INT => Some (Fixed "int" "")
  | DECIMAL => Some (Callable parse_decimal)
  | DATETIME => Some (Fixed "datetime" "")
  | OtherType _ => None
  end.

(** Lines 187-195: the pair [(map_python, map_alchemy)] of a column type. *)
Definition map_type (kind : DataType) : result (string * string) :=
  match SQL_TYPE_MAP (dt_this kind) with
  | None => Raise (TypeError "Unknown column type ")
  | Some (Callable type_cb) => type_cb kind
  | Some (Fixed map_python map_alchemy) =>
      if truthy (dt_expressions kind)
      then Raise (ValueError "Simple mapping types should not have expressions")
      else Ok (map_python, map_alchemy)
  end.

(** ** Indexes (lines 110-120) *)

(** The declaration of one index statement. *)
Definition index_decl (expr : IndexStmt) : string :=
  let index_name := ix_name expr in
  let unique_str := if ix_unique expr then ", unique=True" else "" in
  let col_names := map quote (ix_columns expr) in
  "Index(" +:+ quote index_name +:+ ", " +:+ join ", " col_names
    +:+ unique_str +:+ ")".

(** [d.get(k, [])]. *)
Definition get_list (d : gmap string (list string)) (k : string) : list string :=
  default [] (d !! k).

(** [d.setdefault(k, []).append(v)]. *)
Definition setdefault_append (d : gmap string (list string)) (k v : string)
  : gmap string (list string) :=
  <[k := get_list d k ++ [v]]> d.

Definition collect_indexes (indexes : list IndexStmt) : gmap string (list string) :=
  fold_left (fun table_indexes expr =>
               setdefault_append table_indexes (ix_table expr) (index_decl expr))
            indexes ∅.

(** ** Table-level constraints (lines 135-174) *)

(** The loop over a foreign key's options, from the string built so far. *)
Fixpoint fk_options (opts : list string) (option_str : string) : result string :=
  match opts with
  | [] => Ok option_str
  | opt :: opts' =>
      if String.eqb opt "ON DELETE CASCADE"
      then fk_options opts' (option_str +:+ ", ondelete=" +:+ quote "CASCADE")
      else Raise (ValueError ("Unknown option " +:+ opt))
  end.

(** The state of the constraint loop: [primary_key] and [table_args]. *)
Record ConstState : Type := {
  primary_key : list string;
  table_args : list string;
}.

(** One iteration of the loop over [expr.find_all(Constraint)].  The test of
    line 153 repeats the one of line 139 and cannot fail after it. *)
Definition constraint_step (st : ConstState) (const : Constraint) : result ConstState :=
  match const_expressions const with
  | [this] =>
      let name := const_name const in
      match this with
      | PrimaryKey columns =>
          if truthy (primary_key st)
          then Raise (ValueError "Multiple primary keys found")
          else
            let primary_key' := primary_key st ++ columns in
            let quoted := map quote primary_key' in
            Ok {| primary_key := primary_key';
                  table_args := table_args st ++
                    ["PrimaryKeyConstraint(" +:+ join ", " quoted
                       +:+ ", name=" +:+ quote name +:+ ")"] |}
      | UniqueColumnConstraint columns =>
          let cols := map quote columns in
          Ok {| primary_key := primary_key st;
                table_args := table_args st ++
                  ["UniqueConstraint(" +:+ join ", " cols
                     +:+ ", name=" +:+ quote name +:+ ")"] |}
      | CheckColumnConstraint const_expr_this =>
          Ok {| primary_key := primary_key st;
                table_args := table_args st ++
                  ["CheckConstraint(" +:+ quote const_expr_this
                     +:+ ", name=" +:+ quote name +:+ ")"] |}
      | ForeignKey columns head_ref =>
          let curr_cols := map quote columns in
          let opts := ref_options head_ref in
          let ref_table := ref_table head_ref in
          let ref_cols :=
            map (fun ident => quote (ref_table +:+ "." +:+ ident))
                (ref_columns head_ref) in
          option_str ← fk_options opts "";
          Ok {| primary_key := primary_key st;
                table_args := table_args st ++
                  ["ForeignKeyConstraint([" +:+ join ", " curr_cols +:+ "], ["
                     +:+ join ", " ref_cols +:+ "], name=" +:+ quote name
                     +:+ option_str +:+ ")"] |}
      | OtherConstraintKind => Raise (TypeError "Unknown constraint ")
      end
  | _ =>
      Raise (ValueError "Invalid constraint definition: only single expression allowed")
  end.

Fixpoint constraint_loop (st : ConstState) (consts : list Constraint) : result ConstState :=
  match consts with
  | [] => Ok st
  | const :: consts' => st' ← constraint_step st const; constraint_loop st' consts'
  end.

(** ** The constraint and index block (lines 178-183) *)

Definition render_table_args (lines table_args : list string) : list string :=
  if MAX_LINE_LENGTH <? len (join ", " table_args) + 23 then
    lines ++ ["    __table_args__ = ("]
          ++ map (fun line => "        " +:+ line +:+ ",") table_args
          ++ ["    )"]
  else if truthy table_args then
    lines ++ ["    __table_args__ = (" +:+ join ", " table_args +:+ ",)"]
  else lines.

(** ** Columns (lines 185-208) *)

(** The loop over [col.constraints], from the current [can_be_null]. *)
Fixpoint column_constraints (consts : list ColumnConstraintKind) (can_be_null : bool)
  : result bool :=
  match consts with
  | [] => Ok can_be_null
  | NotNullColumnConstraint :: consts' => column_constraints consts' false
  | OtherColumnConstraint :: _ => Raise (TypeError "Unknown column constraint type")
  end.

Definition optional_suffix (can_be_null : bool) (col_name : string)
    (primary_key : list string) : string :=
  if can_be_null && negb (bool_decide (col_name ∈ primary_key))
  then " | None" else "".

(** Lines 203-204: the storage annotation, kept empty when there is none. *)
Definition annotation (map_alchemy : string) : string :=
  if truthy_str map_alchemy
  then " = mapped_column(" +:+ map_alchemy +:+ ")" else map_alchemy.

(** One iteration of the loop over [expr.find_all(ColumnDef)]. *)
Definition column_step (primary_key : list string) (lines : list string)
    (col : ColumnDef) : result (list string) :=
  let col_name := col_name col in
  '(map_python, map_alchemy) ← map_type (col_kind col);
  can_be_null ← column_constraints (col_constraints col) true;
  let map_alchemy := annotation map_alchemy in
  let col_def :=
    col_name +:+ ": Mapped[" +:+ map_python
      +:+ optional_suffix can_be_null col_name primary_key +:+ "]" +:+ map_alchemy in
  Ok (lines ++ ["    " +:+ col_def]).

Fixpoint column_loop (primary_key : list string) (lines : list string)
    (cols : list ColumnDef) : result (list string) :=
  match cols with
  | [] => Ok lines
  | col :: cols' =>
      lines' ← column_step primary_key lines col; column_loop primary_key lines' cols'
  end.

(** ** Tables (lines 122-211) *)

Definition class_name (table : string) : string :=
  join "" (map capitalize (split "_" table)).

Definition is_node (n : SubNode) : bool :=
  match n with NodeColumnDef _ | NodeConstraint _ => true | NodeOther => false end.

(** One iteration of the loop over the table statements. *)
Definition table_step (table_indexes : gmap string (list string))
    (lines : list string) (expr : TableStmt) : result (list string) :=
  let table := tbl_name expr in
  if startswith table "sqlite_" then Ok lines
  else
    let lines := lines ++ ["class " +:+ class_name table +:+ "(Base):"] in
    let lines := lines ++ ["    " +:+ DQ +:+ DQ +:+ DQ +:+ "ORM class for " +:+ table
                             +:+ "." +:+ DQ +:+ DQ +:+ DQ] in
    let lines := lines ++ [""] in
    let lines := lines ++ ["    __tablename__ = " +:+ quote table] in
    if negb (forallb is_node (tbl_expressions expr))
    then Raise (ValueError "Invalid table definition: only columns and constraints allowed")
    else
      st ← constraint_loop {| primary_key := []; table_args := [] |}
                           (tbl_constraints expr);
      let table_args := table_args st ++ get_list table_indexes table in
      let lines := render_table_args lines table_args in
      lines ← column_loop (primary_key st) lines (tbl_columns expr);
      let lines := lines ++ [""] in
      let lines := lines ++ [""] in
      Ok lines.

Fixpoint table_loop (table_indexes : gmap string (list string))
    (lines : list string) (tables : list TableStmt) : result (list string) :=
  match tables with
  | [] => Ok lines
  | expr :: tables' =>
      lines' ← table_step table_indexes lines expr;
      table_loop table_indexes lines' tables'
  end.

(** ** The whole translation (lines 66-213) *)

Definition version : string := "1.0.35".

(** The dedented header. *)
Definition header : string :=
  join NL [
    DQ +:+ DQ +:+ DQ +:+ "ORM schema." +:+ DQ +:+ DQ +:+ DQ;
    "# ruff: noqa: E501";
    "";
    "from __future__ import annotations";
    "";
    "from datetime import datetime  # noqa: TC003";
    "";
    "from sqlalchemy import (";
    "    BigInteger,";
    "    CheckConstraint,";
    "    ForeignKeyConstraint,";
    "    Index,";
    "    Numeric,";
    "    PrimaryKeyConstraint,";
    "    SmallInteger,";
    "    String,";
    "    Text,";
    "    UniqueConstraint,";
    ")";
    "from sqlalchemy.orm import DeclarativeBase, Mapped, mapped_column";
    "";
    "__version__ = " +:+ quote version;
    "";
    "";
    "class Base(DeclarativeBase):";
    "    " +:+ DQ +:+ DQ +:+ DQ +:+ "ORM base class." +:+ DQ +:+ DQ +:+ DQ;
    "";
    "";
    ""
  ].

Definition is_create (node : Expression) : bool :=
  match node with NotCreate => false | _ => true end.

(** [expr.kind] is TABLE or INDEX. *)
Definition kind_table_or_index (expr : Expression) : bool :=
  match expr with CreateTable _ | CreateIndex _ => true | _ => false end.

Definition indexes_of (expressions : list Expression) : list IndexStmt :=
  omap (fun expr => match expr with CreateIndex i => Some i | _ => None end) expressions.

Definition tables_of (expressions : list Expression) : list TableStmt :=
  omap (fun expr => match expr with CreateTable t => Some t | _ => None end) expressions.

(** Lines 69-212: the lines of the class blocks. *)
Definition translate_lines (expressions : list Expression) : result (list string) :=
  if negb (forallb is_create expressions)
  then Raise (ValueError "Input file must contain only CREATE TABLE statements.")
  else
    let lines := [] in
    if negb (forallb kind_table_or_index expressions)
    then Raise (ValueError
           "Input file must contain only CREATE TABLE and CREATE INDEX statements.")
    else
      let indexes := indexes_of expressions in
      let tables := tables_of expressions in
      let table_indexes := collect_indexes indexes in
      table_loop table_indexes lines tables.

(** The text handed to [write_text]. *)
Definition translate (expressions : list Expression) : result string :=
  lines ← translate_lines expressions; Ok (header +:+ join NL lines).

(** The files, contents by path, and the writes a run performs on them. *)
Inductive io_event : Type :=
| WriteText (path data : string).

Definition apply_event (fs : gmap string string) (ev : io_event)
  : gmap string string :=
  match ev with WriteText path data => <[path := data]> fs end.

Definition apply_events (fs : gmap string string) (evs : list io_event)
  : gmap string string :=
  fold_left apply_event evs fs.

(** [convert_sqlite_to_orm], on the statements [sqlglot.parse] returned for
    the input file: [None] or the exception, and the writes performed. *)
Definition convert_sqlite_to_orm (expressions : list Expression)
    (output_path : string) : result unit * list io_event :=
  match translate expressions with
  | Ok text => (Ok tt, [WriteText output_path text])
  | Raise e => (Raise e, [])
  end.

(** ** Vocabulary of the properties *)

(** The state a table's constraint loop starts from. *)
Definition init_state : ConstState := {| primary_key := []; table_args := [] |}.

(** A table is retained when its name lacks the reserved prefix. *)
Definition retained (t : TableStmt) : bool :=
  negb (startswith (tbl_name t) "sqlite_").

(** The statements left when the tables with the reserved prefix are dropped. *)
Definition drop_reserved (expressions : list Expression) : list Expression :=
  List.filter (fun expr => match expr with
                           | CreateTable t => retained t
                           | _ => true
                           end) expressions.

(** The first lines of a class block. *)
Definition class_line (t : TableStmt) : string :=
  "class " +:+ class_name (tbl_name t) +:+ "(Base):".

Definition block_head (t : TableStmt) : list string :=
  [class_line t;
   "    " +:+ DQ +:+ DQ +:+ DQ +:+ "ORM class for " +:+ tbl_name t
     +:+ "." +:+ DQ +:+ DQ +:+ DQ;
   "";
   "    __tablename__ = " +:+ quote (tbl_name t)].

(** A line that opens a class block. *)
Definition is_class_line (s : string) : bool := startswith s "class ".

(** The block of a retained table: its class line, and no other such line. *)
Definition class_block_of (t : TableStmt) (block : list string) : Prop :=
  exists body, block = class_line t :: body
               /\ Forall (fun l => is_class_line l = false) body.

(** A field declaration. *)
Definition field_decl (col_name map_python suffix storage : string) : string :=
  "    " +:+ col_name +:+ ": Mapped[" +:+ map_python +:+ suffix +:+ "]" +:+ storage.

(** What one column contributes: its field declaration. *)
Definition field_of (pk : list string) (col : ColumnDef) (line : string) : Prop :=
  exists map_python map_alchemy can_be_null,
    map_type (col_kind col) = Ok (map_python, map_alchemy)
    /\ column_constraints (col_constraints col) true = Ok can_be_null
    /\ line = field_decl (col_name col) map_python
                (optional_suffix can_be_null (col_name col) pk)
                (annotation map_alchemy).

(** The columns of the primary-key constraints of a table, in order. *)
Definition pk_columns (consts : list Constraint) : list string :=
  concat (omap (fun c => match const_expressions c with
                         | [PrimaryKey columns] => Some columns
                         | _ => None
                         end) consts).

(** The declarations of the indexes on [table], in statement order. *)
Definition indexes_on (table : string) (indexes : list IndexStmt) : list string :=
  index_decl <$> filter (fun i => ix_table i = table) indexes.

(** The two renderings of a non-empty constraint and index block. *)
Definition multi_line_block (table_args : list string) : list string :=
  ["    __table_args__ = ("]
    ++ map (fun line => "        " +:+ line +:+ ",") table_args
    ++ ["    )"].

Definition inline_tuple (table_args : list string) : string :=
  "    __table_args__ = (" +:+ join ", " table_args +:+ ",)".

(** The decimal numeral of a natural number. *)
Definition decimal (n : nat) : string :=
  NilEmpty.string_of_uint (Nat.to_uint n).

(** The modifier of one translated option. *)
Definition cascade_modifier : string := ", ondelete=" +:+ quote "CASCADE".

Definition foreign_key_decl (name : string) (columns : list string)
    (ref_table : string) (ref_columns : list string) (modifiers : string) : string :=
  "ForeignKeyConstraint([" +:+ join ", " (map quote columns) +:+ "], ["
    +:+ join ", " (map (fun c => quote (ref_table +:+ "." +:+ c)) ref_columns)
    +:+ "], name=" +:+ quote name +:+ modifiers +:+ ")".

(** ** Sample statements *)

Module Sample.

Definition column (name : string) (tag : TypeTag) (args : list string)
    (consts : list ColumnConstraintKind) : ColumnDef :=
  {| col_name := name;
     col_kind := {| dt_this := tag; dt_expressions := args |};
     col_constraints := consts |}.

Definition constraint (name : string) (this : ConstraintKind) : Constraint :=
  {| const_name := name; const_expressions := [this] |}.

(** A table statement as the parser gives it: no [expr.expressions], the
    constraints and the columns in declaration order. *)
Definition table (name : string) (consts : list Constraint)
    (cols : list ColumnDef) : TableStmt :=
  {| tbl_name := name; tbl_expressions := [];
     tbl_constraints := consts; tbl_columns := cols |}.

(** [CREATE TABLE users (id INTEGER, name VARCHAR(50) NOT NULL,
    CONSTRAINT pk_users PRIMARY KEY (id))]. *)
Definition users : TableStmt :=
  table "users"
    [constraint "pk_users" (PrimaryKey ["id"])]
    [column "id" INT [] [];
     column "name" VARCHAR ["50"] [NotNullColumnConstraint]].

(** [CREATE UNIQUE INDEX ix_users_name ON users(name)]. *)
Definition ix_users_name : IndexStmt :=
  {| ix_name := "ix_users_name"; ix_unique := true;
     ix_table := "users"; ix_columns := ["name"] |}.

(** A table with the reserved prefix, whose contents no table may have. *)
Definition sqlite_sequence : TableStmt :=
  table "sqlite_sequence"
    [constraint "pk1" (PrimaryKey ["name"]);
     constraint "pk2" (PrimaryKey ["seq"])]
    [column "name" (OtherType "BLOB") ["x"] [OtherColumnConstraint]].

(** [CREATE TABLE order_items (order_id BIGINT NOT NULL, price DECIMAL(10, 2),
    note TEXT, CONSTRAINT fk_user FOREIGN KEY (order_id) REFERENCES users (id)
    ON DELETE CASCADE)]. *)
Definition order_items : TableStmt :=
  table "order_items"
    [constraint "fk_user"
       (ForeignKey ["order_id"]
          {| ref_table := "users"; ref_columns := ["id"];
             ref_options := ["ON DELETE CASCADE"] |})]
    [column "order_id" BIGINT [] [NotNullColumnConstraint];
     column "price" DECIMAL ["10"; "2"] [];
     column "note" TEXT [] []].

Definition schema : list Expression :=
  [CreateTable sqlite_sequence; CreateIndex ix_users_name;
   CreateTable users; CreateTable order_items].

(** [CREATE TABLE pairs (a INTEGER, b INTEGER, CONSTRAINT pk_a PRIMARY KEY (a),
    CONSTRAINT uq_b UNIQUE (b), CONSTRAINT pk_b PRIMARY KEY (b))]. *)
Definition pk_a : Constraint := constraint "pk_a" (PrimaryKey ["a"]).
Definition uq_b : Constraint := constraint "uq_b" (UniqueColumnConstraint ["b"]).
Definition pk_b : Constraint := constraint "pk_b" (PrimaryKey ["b"]).

Definition pairs : TableStmt :=
  table "pairs" [pk_a; uq_b; pk_b]
    [column "a" INT [] []; column "b" INT [] []].

(** A foreign key with the option [ON DELETE CASCADE], and one with an
    option the translator does not know. *)
Definition fk_cascade : Constraint :=
  constraint "fk_user"
    (ForeignKey ["user_id"]
       {| ref_table := "users"; ref_columns := ["id"];
          ref_options := ["ON DELETE CASCADE"] |}).

Definition fk_set_null : Constraint :=
  constraint "fk_user"
    (ForeignKey ["user_id"]
       {| ref_table := "users"; ref_columns := ["id"];
          ref_options := ["ON DELETE CASCADE"; "ON DELETE SET NULL"] |}).

(** [CREATE TABLE blobs (id INTEGER NOT NULL, data BLOB)]: a column type
    that the mapping does not have. *)
Definition blobs : TableStmt :=
  table "blobs" []
    [column "id" INT [] [NotNullColumnConstraint];
     column "data" (OtherType "BLOB") [] []].

Definition sessions : TableStmt :=
  table "sessions" [fk_set_null]
    [column "user_id" INT [] [NotNullColumnConstraint]].

(** [CREATE TABLE notes (a INT NULL)]: the constraint [NULL] reaches the
    translator as a node of class [NotNullColumnConstraint]. *)
Definition notes : TableStmt :=
  table "notes" [] [column "a" INT [] [NotNullColumnConstraint]].

(** [CREATE TABLE t (id INTEGER, CONSTRAINT
    pk_t_primary_key_constraint_with_long_name PRIMARY KEY (id))]: the name
    has 42 characters, the declaration 77. *)
Definition long_pk : Constraint :=
  constraint "pk_t_primary_key_constraint_with_long_name" (PrimaryKey ["id"]).

Definition tight : TableStmt :=
  table "t" [long_pk] [column "id" INT [] []].

End Sample.

(** ** Vocabulary of the further properties *)

(** The semantic types, and the storage types the header imports. *)
Definition semantic_types : list string := ["str"; "int"; "float"; "datetime"].

Definition storage_names : list string :=
  ["BigInteger"; "Numeric"; "SmallInteger"; "String"; "Text"].

(** What a run ends with, without its value. *)
Definition outcome {A} (r : result A) : result unit := (fun _ => tt) <$> r.

(** A table statement translates when taken alone. *)
Definition valid_alone (t : TableStmt) : bool := is_ok (table_step ∅ [] t).

(** A string of ASCII characters. *)
Definition is_ascii (s : string) : bool := all_chars (char_between 0 127) s.

(** The number of occurrences of a character. *)
Fixpoint count_char (c : ascii) (s : string) : nat :=
  match s with
  | EmptyString => 0
  | String c' r => (if Ascii.eqb c' c then 1 else 0) + count_char c r
  end.

(** * Properties *)

(** ** The exception monad *)

Lemma bind_Ok_inv {A B} (m : result A) (f : A -> result B) (b : B) :
  m ≫= f = Ok b -> exists a, m = Ok a /\ f a = Ok b.
Proof. destruct m as [a|e]; simpl; [eauto | discriminate]. Qed.

Ltac inv_bind H :=
  let a := fresh "a" in
  let Ha := fresh "H" a in
  apply bind_Ok_inv in H as (a & Ha & H).

(** ** Loops append to [lines] *)

Section Accumulate.

Variable table_indexes : gmap string (list string).

Lemma column_step_app pk lines col :
  column_step pk lines col = column_step pk [] col ≫= (fun ls => Ok (lines ++ ls)).
Proof.
  unfold column_step.
  destruct (map_type (col_kind col)) as [[py al]|e]; simpl; [|reflexivity].
  destruct (column_constraints (col_constraints col) true); reflexivity.
Qed.

Lemma column_loop_app pk cols : forall lines,
  column_loop pk lines cols = column_loop pk [] cols ≫= (fun ls => Ok (lines ++ ls)).
Proof.
  induction cols as [|col cols IH]; intros lines; simpl.
  - by rewrite app_nil_r.
  - rewrite column_step_app.
    destruct (column_step pk [] col) as [l1|e]; simpl; [|reflexivity].
    rewrite (IH (lines ++ l1)), (IH l1).
    destruct (column_loop pk [] cols); simpl; [|reflexivity].
    by rewrite app_assoc.
Qed.

Lemma render_table_args_app lines args :
  render_table_args lines args = lines ++ render_table_args [] args.
Proof.
  unfold render_table_args.
  destruct (MAX_LINE_LENGTH <? _); [reflexivity|].
  destruct (truthy args); [reflexivity | by rewrite app_nil_r].
Qed.

Lemma table_step_app lines expr :
  table_step table_indexes lines expr
  = table_step table_indexes [] expr ≫= (fun ls => Ok (lines ++ ls)).
Proof.
  unfold table_step.
  destruct (startswith (tbl_name expr) "sqlite_"); simpl.
  { by rewrite app_nil_r. }
  destruct (negb (forallb is_node (tbl_expressions expr))); simpl; [reflexivity|].
  destruct (constraint_loop _ _) as [st|e]; simpl; [|reflexivity].
  rewrite (render_table_args_app (_ ++ _)), (render_table_args_app [_; _; _; _]).
  rewrite (column_loop_app _ _ (_ ++ _)), (column_loop_app _ _ ([_; _; _; _] ++ _)).
  destruct (column_loop _ [] _) as [cl|e]; simpl; [|reflexivity].
  by rewrite <- !app_assoc.
Qed.

Lemma table_loop_app tables : forall lines,
  table_loop table_indexes lines tables
  = table_loop table_indexes [] tables ≫= (fun ls => Ok (lines ++ ls)).
Proof.
  induction tables as [|t tables IH]; intros lines; simpl.
  - by rewrite app_nil_r.
  - rewrite table_step_app.
    destruct (table_step table_indexes [] t) as [l1|e]; simpl; [|reflexivity].
    rewrite (IH (lines ++ l1)), (IH l1).
    destruct (table_loop table_indexes [] tables); simpl; [|reflexivity].
    by rewrite app_assoc.
Qed.

End Accumulate.

(** ** Columns *)

Lemma column_constraints_Ok consts : forall b b',
  column_constraints consts b = Ok b' ->
  Forall (fun k => k = NotNullColumnConstraint) consts
  /\ b' = (if truthy consts then false else b).
Proof.
  induction consts as [|k consts IH]; intros b b' H; simpl in *.
  - injection H as <-. auto.
  - destruct k; [|discriminate].
    apply IH in H as [Hall ->]. split; [by constructor|].
    by destruct consts.
Qed.

Lemma column_step_Ok pk lines col lines' :
  column_step pk lines col = Ok lines' ->
  exists line, field_of pk col line /\ lines' = lines ++ [line].
Proof.
  unfold column_step. intros H.
  inv_bind H. destruct a as [py al]. inv_bind H. injection H as <-.
  eexists; split; [|reflexivity]. by exists py, al, a.
Qed.

Lemma column_loop_Ok pk cols : forall fields,
  column_loop pk [] cols = Ok fields -> Forall2 (field_of pk) cols fields.
Proof.
  induction cols as [|col cols IH]; intros fields H; simpl in H.
  - injection H as <-. constructor.
  - inv_bind H. apply column_step_Ok in Ha as (line & Hline & ->).
    rewrite column_loop_app in H. inv_bind H. injection H as <-.
    constructor; [done | by apply IH].
Qed.

(** ** Table-level constraints *)

Lemma constraint_step_Ok st const st' :
  constraint_step st const = Ok st' ->
  primary_key st' = primary_key st ++ pk_columns [const]
  /\ exists decl, table_args st' = table_args st ++ [decl].
Proof.
  unfold constraint_step, pk_columns. intros H. simpl.
  destruct (const_expressions const) as [|this [|]]; try discriminate.
  destruct this; simpl in *.
  - destruct (truthy (primary_key st)); [discriminate|].
    injection H as <-; simpl. rewrite app_nil_r. eauto.
  - injection H as <-; simpl. rewrite app_nil_r. eauto.
  - injection H as <-; simpl. rewrite app_nil_r. eauto.
  - inv_bind H. injection H as <-; simpl. rewrite app_nil_r. eauto.
  - discriminate.
Qed.

Lemma pk_columns_cons const consts :
  pk_columns (const :: consts) = pk_columns [const] ++ pk_columns consts.
Proof.
  unfold pk_columns; simpl.
  destruct (match const_expressions const with [PrimaryKey c] => Some c | _ => None end);
    simpl; by rewrite ?app_nil_r.
Qed.

Lemma constraint_loop_Ok consts : forall st st',
  constraint_loop st consts = Ok st' ->
  primary_key st' = primary_key st ++ pk_columns consts
  /\ exists decls, table_args st' = table_args st ++ decls
                   /\ length decls = length consts.
Proof.
  induction consts as [|const consts IH]; intros st st' H; simpl in H.
  - injection H as <-. rewrite app_nil_r. split; [done|].
    exists []. by rewrite app_nil_r.
  - inv_bind H. apply constraint_step_Ok in Ha as (Hpk & d & Hd).
    apply IH in H as (Hpk' & ds & Hds & Hlen).
    rewrite pk_columns_cons, Hpk', Hpk, Hds, Hd, <- !app_assoc. split; [done|].
    exists (d :: ds). simpl. by rewrite Hlen.
Qed.

(** ** Class blocks *)

Lemma table_step_skipped table_indexes lines t :
  retained t = false -> table_step table_indexes lines t = Ok lines.
Proof.
  unfold retained, table_step. intros H%negb_false_iff. by rewrite H.
Qed.

Lemma table_step_retained table_indexes t block :
  retained t = true ->
  table_step table_indexes [] t = Ok block ->
  exists st fields,
    forallb is_node (tbl_expressions t) = true
    /\ constraint_loop init_state (tbl_constraints t) = Ok st
    /\ column_loop (primary_key st) [] (tbl_columns t) = Ok fields
    /\ block = block_head t
               ++ render_table_args []
                    (table_args st ++ get_list table_indexes (tbl_name t))
               ++ fields ++ [""; ""].
Proof.
  unfold retained, table_step. intros Hr%negb_true_iff H. rewrite Hr in H.
  destruct (forallb is_node (tbl_expressions t)); [simpl in H | discriminate].
  inv_bind H. rewrite render_table_args_app, column_loop_app in H.
  inv_bind H. injection H as <-.
  apply bind_Ok_inv in Ha0 as (fields & Hfields & [= <-]).
  exists a, fields. repeat split; try done.
  unfold block_head, class_line. simpl. by rewrite <- !app_assoc.
Qed.

Lemma table_loop_blocks table_indexes tables : forall lines,
  table_loop table_indexes [] tables = Ok lines ->
  exists blocks,
    lines = concat blocks
    /\ Forall2 (fun t block => table_step table_indexes [] t = Ok block) tables blocks.
Proof.
  induction tables as [|t tables IH]; intros lines H; simpl in H.
  - injection H as <-. exists []. split; [done | constructor].
  - inv_bind H. rewrite table_loop_app in H. inv_bind H. injection H as <-.
    destruct (IH _ Ha0) as (blocks & -> & Hall).
    exists (a :: blocks). split; [done | by constructor].
Qed.

(** ** The index dictionary *)

Lemma get_list_setdefault_append d k v table :
  get_list (setdefault_append d k v) table
  = if decide (k = table) then get_list d table ++ [v] else get_list d table.
Proof.
  unfold get_list, setdefault_append. rewrite lookup_insert.
  case_decide; [subst|]; by rewrite ?decide_True, ?decide_False by done.
Qed.

Lemma collect_indexes_from indexes table : forall d,
  get_list (fold_left (fun table_indexes expr =>
              setdefault_append table_indexes (ix_table expr) (index_decl expr))
            indexes d) table
  = get_list d table ++ indexes_on table indexes.
Proof.
  unfold indexes_on.
  induction indexes as [|i indexes IH]; intros d; simpl.
  - by rewrite app_nil_r.
  - rewrite IH, get_list_setdefault_append, filter_cons.
    case_decide; simpl; [by rewrite <- app_assoc | done].
Qed.

Lemma collect_indexes_get indexes table :
  get_list (collect_indexes indexes) table = indexes_on table indexes.
Proof. unfold collect_indexes. by rewrite collect_indexes_from. Qed.

(** A table reads the dictionary at its own name only. *)
Lemma table_step_ext d1 d2 lines t :
  (retained t = true -> get_list d1 (tbl_name t) = get_list d2 (tbl_name t)) ->
  table_step d1 lines t = table_step d2 lines t.
Proof.
  unfold retained, table_step. intros H.
  destruct (startswith (tbl_name t) "sqlite_"); [done|].
  by rewrite H.
Qed.

Lemma table_loop_ext d1 d2 tables : forall lines,
  (forall t, In t tables -> retained t = true ->
             get_list d1 (tbl_name t) = get_list d2 (tbl_name t)) ->
  table_loop d1 lines tables = table_loop d2 lines tables.
Proof.
  induction tables as [|t tables IH]; intros lines H; simpl; [done|].
  rewrite (table_step_ext d1 d2) by (apply H; by left).
  destruct (table_step d2 lines t); simpl; [|done].
  apply IH. intros t' Hin. apply H. by right.
Qed.

Lemma table_loop_retained d tables : forall lines,
  table_loop d lines tables = table_loop d lines (List.filter retained tables).
Proof.
  induction tables as [|t tables IH]; intros lines; simpl; [done|].
  destruct (retained t) eqn:Hr; simpl.
  - destruct (table_step d lines t); simpl; [apply IH | done].
  - rewrite table_step_skipped by done. simpl. apply IH.
Qed.

(** ** Statements *)

Lemma tables_of_app e1 e2 : tables_of (e1 ++ e2) = tables_of e1 ++ tables_of e2.
Proof. apply omap_app. Qed.

Lemma indexes_of_app e1 e2 : indexes_of (e1 ++ e2) = indexes_of e1 ++ indexes_of e2.
Proof. apply omap_app. Qed.

Lemma indexes_of_index i e : indexes_of (CreateIndex i :: e) = i :: indexes_of e.
Proof. reflexivity. Qed.

Lemma indexes_of_table t e : indexes_of (CreateTable t :: e) = indexes_of e.
Proof. reflexivity. Qed.

Lemma tables_of_index i e : tables_of (CreateIndex i :: e) = tables_of e.
Proof. reflexivity. Qed.

Lemma tables_of_table t e : tables_of (CreateTable t :: e) = t :: tables_of e.
Proof. reflexivity. Qed.

Lemma drop_reserved_spec expressions :
  forallb is_create (drop_reserved expressions) = forallb is_create expressions
  /\ forallb kind_table_or_index (drop_reserved expressions)
     = forallb kind_table_or_index expressions
  /\ indexes_of (drop_reserved expressions) = indexes_of expressions
  /\ tables_of (drop_reserved expressions)
     = List.filter retained (tables_of expressions).
Proof.
  unfold drop_reserved, indexes_of, tables_of.
  induction expressions as [|expr expressions (IH1 & IH2 & IH3 & IH4)]; [done|].
  destruct expr as [t| | |]; simpl; try destruct (retained t); simpl;
    rewrite ?IH1, ?IH2; repeat split; try done; f_equal; done.
Qed.

Lemma translate_lines_drop_reserved expressions :
  translate_lines expressions = translate_lines (drop_reserved expressions).
Proof.
  unfold translate_lines.
  destruct (drop_reserved_spec expressions) as (-> & -> & -> & ->).
  destruct (negb (forallb is_create expressions)); [done|].
  destruct (negb (forallb kind_table_or_index expressions)); [done|].
  apply table_loop_retained.
Qed.

(** ** Lines that open a class block *)

Lemma is_class_line_indented s : is_class_line ("    " +:+ s) = false.
Proof. reflexivity. Qed.

Lemma is_class_line_class_line t : is_class_line (class_line t) = true.
Proof.
  change (String.prefix "" (class_name (tbl_name t) +:+ "(Base):") = true).
  by destruct (class_name (tbl_name t) +:+ "(Base):").
Qed.

Lemma render_table_args_indented args :
  Forall (fun l => is_class_line l = false) (render_table_args [] args).
Proof.
  unfold render_table_args.
  destruct (MAX_LINE_LENGTH <? _).
  - simpl. constructor; [done|]. apply Forall_app. split.
    + apply Forall_map, Forall_forall. by intros.
    + by constructor.
  - destruct (truthy args); simpl; by repeat constructor.
Qed.

Lemma fields_indented pk cols fields :
  Forall2 (field_of pk) cols fields ->
  Forall (fun l => is_class_line l = false) fields.
Proof.
  induction 1 as [|col line cols fields (py & al & b & _ & _ & ->) _ IH];
    constructor; done.
Qed.

Lemma table_step_class_block d t block :
  retained t = true -> table_step d [] t = Ok block -> class_block_of t block.
Proof.
  intros Hr H.
  destruct (table_step_retained d t block Hr H) as (st & fields & _ & _ & Hf & ->).
  eexists. split; [reflexivity|].
  repeat (constructor; [done|]).
  apply Forall_app. split; [apply render_table_args_indented|].
  apply Forall_app. split; [|by repeat constructor].
  eapply fields_indented, column_loop_Ok, Hf.
Qed.

Lemma filter_class_blocks tables : forall blocks,
  Forall2 class_block_of tables blocks ->
  List.filter is_class_line (concat blocks) = class_line <$> tables.
Proof.
  induction tables as [|t tables IH]; intros blocks H; inversion H; subst; [done|].
  destruct H2 as (body & -> & Hbody). simpl concat. simpl List.filter.
  rewrite List.filter_app, (IH _ H4), is_class_line_class_line. f_equal.
  clear -Hbody. induction Hbody as [|l body Hl _ IHb]; simpl; [done|].
  by rewrite Hl.
Qed.

Lemma blocks_of_retained d tables : forall blocks,
  Forall (fun t => retained t = true) tables ->
  Forall2 (fun t block => table_step d [] t = Ok block) tables blocks ->
  Forall2 class_block_of tables blocks.
Proof.
  induction tables as [|t tables IH]; intros blocks Hr H; inversion H; subst;
    constructor; inversion Hr; subst.
  - by eapply table_step_class_block.
  - by apply IH.
Qed.

Lemma Forall_filter_retained tables :
  Forall (fun t => retained t = true) (List.filter retained tables).
Proof. apply Forall_forall. intros t Ht%list_elem_of_In%List.filter_In. tauto. Qed.

Lemma translate_lines_Ok expressions lines :
  translate_lines expressions = Ok lines ->
  forallb kind_table_or_index expressions = true
  /\ table_loop (collect_indexes (indexes_of expressions)) [] (tables_of expressions)
     = Ok lines.
Proof.
  unfold translate_lines. intros H.
  destruct (forallb is_create expressions); [|discriminate].
  destruct (forallb kind_table_or_index expressions); [|discriminate].
  done.
Qed.

Lemma translate_Ok expressions text :
  translate expressions = Ok text ->
  exists lines, translate_lines expressions = Ok lines
                /\ text = header +:+ join NL lines.
Proof. unfold translate. intros H. inv_bind H. injection H as <-. eauto. Qed.

(** ** C1: one class block per retained table *)

(** C1.  Dropping the table statements whose name starts with the reserved
    prefix changes neither the output nor the outcome, whatever they contain.
    When the translation succeeds, the text after the header is made of one
    block per table statement without the prefix, in the order of the input:
    each block opens with the class line of its table and holds no other
    class line, so that the class lines of the output are those of the
    retained tables, in order. *)
Theorem class_blocks_of_retained_tables (expressions : list Expression) :
  translate expressions = translate (drop_reserved expressions)
  /\ forall text, translate expressions = Ok text ->
       exists blocks,
         text = header +:+ join NL (concat blocks)
         /\ Forall2 class_block_of
                    (List.filter retained (tables_of expressions)) blocks
         /\ List.filter is_class_line (concat blocks)
            = class_line <$> List.filter retained (tables_of expressions).
Proof.
  split.
  { unfold translate. by rewrite <- translate_lines_drop_reserved. }
  intros text (lines & Hlines & ->)%translate_Ok.
  apply translate_lines_Ok in Hlines as [_ Hloop].
  rewrite table_loop_retained in Hloop.
  apply table_loop_blocks in Hloop as (blocks & -> & Hblocks).
  apply blocks_of_retained in Hblocks; [|apply Forall_filter_retained].
  exists blocks. split; [done|]. split; [done|].
  by apply filter_class_blocks.
Qed.

Lemma class_blocks_of_retained_tables_witness :
  exists text,
    translate Sample.schema = Ok text
    /\ exists blocks,
         text = header +:+ join NL (concat blocks)
         /\ Forall2 class_block_of [Sample.users; Sample.order_items] blocks
         /\ List.filter is_class_line (concat blocks)
            = ["class Users(Base):"; "class OrderItems(Base):"].
Proof.
  eexists. split; [vm_compute; reflexivity|].
  apply (proj2 (class_blocks_of_retained_tables Sample.schema)).
  vm_compute; reflexivity.
Defined.

(** ** C2: primary-key columns are never optional *)

Lemma optional_suffix_member can_be_null name pk :
  name ∈ pk -> optional_suffix can_be_null name pk = "".
Proof.
  intros H. unfold optional_suffix.
  rewrite bool_decide_eq_true_2 by done. by rewrite andb_false_r.
Qed.

Lemma optional_suffix_nullable name pk :
  name ∉ pk -> optional_suffix true name pk = " | None".
Proof.
  intros H. unfold optional_suffix. by rewrite bool_decide_eq_false_2.
Qed.

Lemma column_constraints_nullable consts can_be_null :
  column_constraints consts true = Ok can_be_null ->
  NotNullColumnConstraint ∉ consts -> can_be_null = true.
Proof.
  intros [Hall ->]%column_constraints_Ok Hnot.
  destruct consts as [|k consts]; [done|].
  inversion Hall; subst. exfalso. apply Hnot. by left.
Qed.

(** What holds of the marker.  In the block of a retained table, the lines
    before the two closing blank lines are the field declarations of its
    columns, one per column in order.  The declaration of a column whose name
    is among the columns recorded from the table's PRIMARY KEY constraint
    carries no optional marker; the declaration of a column with no
    constraint of class NotNullColumnConstraint whose name is not among them
    carries the marker. *)
Theorem primary_key_overrides_nullability
    (table_indexes : gmap string (list string)) (t : TableStmt)
    (block : list string) :
  retained t = true ->
  table_step table_indexes [] t = Ok block ->
  exists before fields,
    block = before ++ fields ++ [""; ""]
    /\ Forall2 (fun col line =>
         exists map_python map_alchemy suffix,
           map_type (col_kind col) = Ok (map_python, map_alchemy)
           /\ line = field_decl (col_name col) map_python suffix
                       (annotation map_alchemy)
           /\ (col_name col ∈ pk_columns (tbl_constraints t) -> suffix = "")
           /\ (NotNullColumnConstraint ∉ col_constraints col ->
               col_name col ∉ pk_columns (tbl_constraints t) ->
               suffix = " | None"))
         (tbl_columns t) fields.
Proof.
  intros Hr H.
  destruct (table_step_retained _ _ _ Hr H) as (st & fields & _ & Hc & Hf & ->).
  apply constraint_loop_Ok in Hc as [Hpk _]. simpl in Hpk.
  apply column_loop_Ok in Hf. rewrite Hpk in Hf.
  eexists (_ ++ _), fields. split; [by rewrite <- app_assoc|].
  eapply Forall2_impl; [exact Hf|].
  intros col line (py & al & b & Hty & Hb & ->).
  exists py, al, (optional_suffix b (col_name col) (pk_columns (tbl_constraints t))).
  repeat split; [done| |].
  - apply optional_suffix_member.
  - intros Hnn Hnot. rewrite (column_constraints_nullable _ _ Hb Hnn).
    by apply optional_suffix_nullable.
Qed.

Lemma primary_key_overrides_nullability_witness :
  retained Sample.users = true
  /\ exists block,
       table_step ∅ [] Sample.users = Ok block
       /\ exists before fields,
            block = before ++ fields ++ [""; ""]
            /\ Forall2 (fun col line =>
                 exists map_python map_alchemy suffix,
                   map_type (col_kind col) = Ok (map_python, map_alchemy)
                   /\ line = field_decl (col_name col) map_python suffix
                               (annotation map_alchemy)
                   /\ (col_name col ∈ ["id"] -> suffix = "")
                   /\ (NotNullColumnConstraint ∉ col_constraints col ->
                       col_name col ∉ ["id"] -> suffix = " | None"))
                 (tbl_columns Sample.users) fields.
Proof.
  split; [reflexivity|].
  eexists. split; [vm_compute; reflexivity|].
  apply (primary_key_overrides_nullability ∅ Sample.users); reflexivity.
Defined.

(** C2.  A column declared NULL gets no optional marker from the code.
    Such a column permits null, and the parser hands it over with one
    constraint of class NotNullColumnConstraint, as it does a column declared
    NOT NULL; the loop of lines 197-201 sets [can_be_null] to false at any
    constraint of that class.  So the field declaration of the column carries
    no optional marker, although the column is nullable and its name is not
    in the primary key. *)
Theorem null_column_lacks_optional_marker
    (pk lines : list string) (col : ColumnDef)
    (map_python map_alchemy : string) :
  map_type (col_kind col) = Ok (map_python, map_alchemy) ->
  col_constraints col = [NotNullColumnConstraint] ->
  col_name col ∉ pk ->
  column_step pk lines col
  = Ok (lines ++ ["    " +:+ col_name col +:+ ": Mapped[" +:+ map_python +:+ "]"
                    +:+ annotation map_alchemy]).
Proof.
  intros Hty Hc _. unfold column_step. rewrite Hty, Hc. reflexivity.
Qed.

Lemma null_column_lacks_optional_marker_witness :
  column_step [] [] (Sample.column "a" INT [] [NotNullColumnConstraint])
    = Ok ["    a: Mapped[int]"]
  /\ translate_lines [CreateTable Sample.notes]
     = Ok ["class Notes(Base):";
           "    " +:+ DQ +:+ DQ +:+ DQ +:+ "ORM class for notes."
             +:+ DQ +:+ DQ +:+ DQ;
           "";
           "    __tablename__ = " +:+ quote "notes";
           "    a: Mapped[int]"; ""; ""].
Proof.
  split; [|reflexivity].
  apply (null_column_lacks_optional_marker [] []
           (Sample.column "a" INT [] [NotNullColumnConstraint]) "int" "");
    [reflexivity | reflexivity | apply not_elem_of_nil].
Defined.

(** ** C3: the bounded-string type *)

Lemma code_points_ascii (c : ascii) (r : string) :
  (N_of_ascii c <? 128)%N = true ->
  code_points (String c r) = cons (N_of_ascii c) <$> code_points r.
Proof.
  intros H. cbn [code_points]. by rewrite H.
Qed.

Lemma uint_code_points (d : uint) :
  exists cps,
    code_points (NilEmpty.string_of_uint d) = Some cps
    /\ forallb is_digit_cp cps = true
    /\ (d <> Nil -> cps <> []).
Proof.
  induction d as [|d (cps & Hc & Hd & _)|d (cps & Hc & Hd & _)
                  |d (cps & Hc & Hd & _)|d (cps & Hc & Hd & _)
                  |d (cps & Hc & Hd & _)|d (cps & Hc & Hd & _)
                  |d (cps & Hc & Hd & _)|d (cps & Hc & Hd & _)
                  |d (cps & Hc & Hd & _)|d (cps & Hc & Hd & _)];
    [by exists []|..];
    simpl NilEmpty.string_of_uint;
    rewrite code_points_ascii, Hc by reflexivity;
    eexists; (split; [reflexivity|]); (split; [|discriminate]);
    simpl forallb; rewrite Hd; vm_compute; reflexivity.
Qed.

Lemma revapp_not_Nil (d : uint) : forall d', d' <> Nil -> revapp d d' <> Nil.
Proof. induction d; intros d' H; simpl; auto; apply IHd; discriminate. Qed.

Lemma to_little_uint_not_Nil (n : nat) : forall acc,
  acc <> Nil -> Nat.to_little_uint n acc <> Nil.
Proof.
  induction n as [|n IH]; intros acc H; simpl; [done|].
  apply IH. destruct acc; discriminate.
Qed.

Lemma to_uint_not_Nil (n : nat) : Nat.to_uint n <> Nil.
Proof.
  unfold Nat.to_uint, Decimal.rev.
  pose proof (to_little_uint_not_Nil n Decimal.zero) as H.
  destruct (Nat.to_little_uint n Decimal.zero); simpl;
    [by apply H | apply revapp_not_Nil; discriminate ..].
Qed.

(** The numerals of the natural numbers are digit strings. *)
Lemma isdigit_decimal (n : nat) : isdigit (decimal n) = true.
Proof.
  unfold isdigit, decimal.
  destruct (uint_code_points (Nat.to_uint n)) as (cps & -> & Hd & Hne).
  destruct cps as [|cp cps]; [|done].
  by destruct (Hne (to_uint_not_Nil n)).
Qed.

(** C3.  For a column type with the VARCHAR tag: with exactly one argument
    that is a digit string N (what [str.isdigit] accepts: at least one
    character, every character a digit of Unicode; the numeral of every
    natural number among them), the mapping returns the string semantic type
    and the storage type String(N), N verbatim; with no argument, with more
    than one, or with an argument that is no digit string, it raises a
    ValueError. *)
Theorem varchar_mapping (kind : DataType) :
  dt_this kind = VARCHAR ->
  (forall n, dt_expressions kind = [n] -> isdigit n = true ->
     map_type kind = Ok ("str", "String(" +:+ n +:+ ")"))
  /\ (forall n : nat, dt_expressions kind = [decimal n] ->
      map_type kind = Ok ("str", "String(" +:+ decimal n +:+ ")"))
  /\ (length (dt_expressions kind) ≠ 1 ->
      exists msg, map_type kind = Raise (ValueError msg))
  /\ (forall a, a ∈ dt_expressions kind -> isdigit a = false ->
      exists msg, map_type kind = Raise (ValueError msg)).
Proof.
  intros Htag.
  assert (Hmap : map_type kind = parse_varchar kind).
  { unfold map_type. by rewrite Htag. }
  rewrite Hmap. unfold parse_varchar. split; [|split; [|split]].
  - intros n -> ->. reflexivity.
  - intros n ->. by rewrite isdigit_decimal.
  - intros Hlen. destruct (dt_expressions kind) as [|a [|b l]]; simpl in *;
      [eauto | lia | eauto].
  - intros a Hin Ha. destruct (dt_expressions kind) as [|b [|c l]]; [eauto| |eauto].
    apply list_elem_of_singleton in Hin as <-. rewrite Ha. simpl. eauto.
Qed.

Lemma varchar_mapping_witness :
  map_type {| dt_this := VARCHAR; dt_expressions := ["200"] |}
    = Ok ("str", "String(200)")
  /\ map_type {| dt_this := VARCHAR; dt_expressions := ["٣"] |}
     = Ok ("str", "String(٣)")
  /\ map_type {| dt_this := VARCHAR; dt_expressions := [decimal 50] |}
     = Ok ("str", "String(50)")
  /\ (exists msg, map_type {| dt_this := VARCHAR; dt_expressions := [] |}
                  = Raise (ValueError msg))
  /\ (exists msg, map_type {| dt_this := VARCHAR; dt_expressions := ["10"; "2"] |}
                  = Raise (ValueError msg))
  /\ (exists msg, map_type {| dt_this := VARCHAR; dt_expressions := ["MAX"] |}
                  = Raise (ValueError msg)).
Proof.
  split; [|split; [|split; [|split; [|split]]]].
  - apply (proj1 (varchar_mapping
             {| dt_this := VARCHAR; dt_expressions := ["200"] |} eq_refl) "200");
      reflexivity.
  - apply (proj1 (varchar_mapping
             {| dt_this := VARCHAR; dt_expressions := ["٣"] |} eq_refl) "٣");
      reflexivity.
  - apply (proj1 (proj2 (varchar_mapping
             {| dt_this := VARCHAR; dt_expressions := [decimal 50] |} eq_refl)) 50);
      reflexivity.
  - apply (proj1 (proj2 (proj2 (varchar_mapping
             {| dt_this := VARCHAR; dt_expressions := [] |} eq_refl)))).
    simpl; lia.
  - apply (proj1 (proj2 (proj2 (varchar_mapping
             {| dt_this := VARCHAR; dt_expressions := ["10"; "2"] |} eq_refl)))).
    simpl; lia.
  - apply (proj2 (proj2 (proj2 (varchar_mapping
             {| dt_this := VARCHAR; dt_expressions := ["MAX"] |} eq_refl))) "MAX");
      [by left | reflexivity].
Defined.

(** ** C4: the fixed-point type *)

(** C4.  For a column type with the DECIMAL tag: with no argument the mapping
    returns the floating semantic type and an empty storage type, and the
    field declaration of such a column ends after the bracket of its type;
    with exactly two digit strings P and S (the numerals of natural numbers
    among them) it returns the storage type Numeric(P, S); with one argument, with more than two, or with an argument
    that is no digit string, it raises a ValueError. *)
Theorem decimal_mapping (kind : DataType) :
  dt_this kind = DECIMAL ->
  (dt_expressions kind = [] ->
     map_type kind = Ok ("float", "")
     /\ forall pk lines col can_be_null,
          col_kind col = kind ->
          column_constraints (col_constraints col) true = Ok can_be_null ->
          column_step pk lines col
          = Ok (lines ++ [field_decl (col_name col) "float"
                            (optional_suffix can_be_null (col_name col) pk) ""]))
  /\ (forall p s, dt_expressions kind = [p; s] ->
        isdigit p = true -> isdigit s = true ->
        map_type kind = Ok ("float", "Numeric(" +:+ p +:+ ", " +:+ s +:+ ")"))
  /\ (forall p s : nat, dt_expressions kind = [decimal p; decimal s] ->
        map_type kind
        = Ok ("float", "Numeric(" +:+ decimal p +:+ ", " +:+ decimal s +:+ ")"))
  /\ (length (dt_expressions kind) ≠ 0 -> length (dt_expressions kind) ≠ 2 ->
      exists msg, map_type kind = Raise (ValueError msg))
  /\ (forall a, a ∈ dt_expressions kind -> isdigit a = false ->
      exists msg, map_type kind = Raise (ValueError msg)).
Proof.
  intros Htag.
  assert (Hmap : map_type kind = parse_decimal kind).
  { unfold map_type. by rewrite Htag. }
  rewrite Hmap. unfold parse_decimal. split; [|split; [|split; [|split]]].
  - intros Hnil. rewrite Hnil. split; [done|].
    intros pk lines col b Hk Hb. unfold column_step.
    rewrite Hk, Hmap. unfold parse_decimal. rewrite Hnil. simpl. by rewrite Hb.
  - intros p s -> -> ->. reflexivity.
  - intros p s ->. by rewrite !isdigit_decimal.
  - intros H0 H2. destruct (dt_expressions kind) as [|a [|b [|c l]]]; simpl in *;
      [lia | eauto | lia | eauto].
  - intros a Hin Ha.
    destruct (dt_expressions kind) as [|b [|c [|d l]]]; [|eauto| |eauto].
    + by apply not_elem_of_nil in Hin.
    + apply elem_of_cons in Hin as [<-|Hin]; [rewrite Ha; simpl; eauto|].
      apply list_elem_of_singleton in Hin as <-. rewrite Ha, orb_true_r. eauto.
Qed.

Lemma decimal_mapping_witness :
  (map_type {| dt_this := DECIMAL; dt_expressions := [] |} = Ok ("float", "")
   /\ column_step ["id"] [] (Sample.column "price" DECIMAL [] [])
      = Ok ["    price: Mapped[float | None]"])
  /\ map_type {| dt_this := DECIMAL; dt_expressions := ["10"; "2"] |}
     = Ok ("float", "Numeric(10, 2)")
  /\ map_type {| dt_this := DECIMAL; dt_expressions := [decimal 12; decimal 0] |}
     = Ok ("float", "Numeric(12, 0)")
  /\ (exists msg, map_type {| dt_this := DECIMAL; dt_expressions := ["10"] |}
                  = Raise (ValueError msg))
  /\ (exists msg, map_type {| dt_this := DECIMAL; dt_expressions := ["10"; "x"] |}
                  = Raise (ValueError msg)).
Proof.
  split; [split|split; [|split; [|split]]].
  - apply (proj1 (decimal_mapping
             {| dt_this := DECIMAL; dt_expressions := [] |} eq_refl)); reflexivity.
  - apply (proj2 (proj1 (decimal_mapping
             {| dt_this := DECIMAL; dt_expressions := [] |} eq_refl) eq_refl)
             ["id"] [] (Sample.column "price" DECIMAL [] []) true); reflexivity.
  - apply (proj1 (proj2 (decimal_mapping
             {| dt_this := DECIMAL; dt_expressions := ["10"; "2"] |} eq_refl))
             "10" "2"); reflexivity.
  - apply (proj1 (proj2 (proj2 (decimal_mapping
             {| dt_this := DECIMAL; dt_expressions := [decimal 12; decimal 0] |}
             eq_refl))) 12 0); reflexivity.
  - apply (proj1 (proj2 (proj2 (proj2 (decimal_mapping
             {| dt_this := DECIMAL; dt_expressions := ["10"] |} eq_refl)))));
      simpl; lia.
  - apply (proj2 (proj2 (proj2 (proj2 (decimal_mapping
             {| dt_this := DECIMAL; dt_expressions := ["10"; "x"] |} eq_refl))))
             "x"); [by right; left | reflexivity].
Defined.

(** ** C5: a second primary key *)

Lemma pk_columns_recorded consts const columns :
  const ∈ consts -> const_expressions const = [PrimaryKey columns] ->
  columns ≠ [] -> pk_columns consts ≠ [].
Proof.
  induction consts as [|c consts IH]; intros Hin Hc Hne.
  - by apply not_elem_of_nil in Hin.
  - rewrite pk_columns_cons. apply elem_of_cons in Hin as [<-|Hin].
    + unfold pk_columns at 1. simpl. rewrite Hc. simpl. rewrite app_nil_r.
      by destruct columns.
    + intros [_ H]%app_eq_nil. by eapply IH.
Qed.

Lemma constraint_loop_app consts1 consts2 : forall st,
  constraint_loop st (consts1 ++ consts2)
  = constraint_loop st consts1 ≫= (fun st' => constraint_loop st' consts2).
Proof.
  induction consts1 as [|c consts1 IH]; intros st; simpl; [done|].
  destruct (constraint_step st c); simpl; [apply IH | done].
Qed.

Lemma table_loop_raise d before t after lines e :
  table_loop d [] before = Ok lines ->
  table_step d lines t = Raise e ->
  table_loop d [] (before ++ t :: after) = Raise e.
Proof.
  revert lines. generalize (@nil string) as acc.
  induction before as [|b before IH]; intros acc lines Hb Ht; simpl in *.
  - injection Hb as ->. by rewrite Ht.
  - destruct (table_step d acc b); simpl in *; [by eapply IH | discriminate].
Qed.

Lemma constraint_failure_raises d lines t consts1 const consts2 st e :
  retained t = true ->
  forallb is_node (tbl_expressions t) = true ->
  tbl_constraints t = consts1 ++ const :: consts2 ->
  constraint_loop init_state consts1 = Ok st ->
  constraint_step st const = Raise e ->
  table_step d lines t = Raise e.
Proof.
  intros Hr%negb_true_iff Hnodes Hconsts Hloop Hstep.
  unfold table_step. rewrite Hr, Hnodes, Hconsts. simpl.
  rewrite constraint_loop_app. unfold init_state in Hloop. rewrite Hloop. simpl.
  by rewrite Hstep.
Qed.

Lemma kinds_are_create expressions :
  forallb kind_table_or_index expressions = true ->
  forallb is_create expressions = true.
Proof.
  rewrite !forallb_forall. intros H x Hx. specialize (H x Hx). by destruct x.
Qed.

Lemma table_failure_aborts expressions output_path before t after e :
  forallb kind_table_or_index expressions = true ->
  tables_of expressions = before ++ t :: after ->
  is_ok (table_loop (collect_indexes (indexes_of expressions)) [] before) = true ->
  (forall lines, table_step (collect_indexes (indexes_of expressions)) lines t
                 = Raise e) ->
  convert_sqlite_to_orm expressions output_path = (Raise e, []).
Proof.
  intros Hkind Htables Hbefore Hstep.
  unfold convert_sqlite_to_orm, translate, translate_lines.
  rewrite (kinds_are_create _ Hkind), Hkind, Htables. simpl.
  destruct (table_loop _ [] before) as [lines|] eqn:Hb; [|discriminate].
  by erewrite table_loop_raise.
Qed.

(** A PRIMARY KEY constraint that lists at least one column is recorded. *)
Lemma primary_key_recorded consts st const columns :
  constraint_loop init_state consts = Ok st ->
  const ∈ consts -> const_expressions const = [PrimaryKey columns] ->
  columns ≠ [] -> primary_key st ≠ [].
Proof.
  intros [-> _]%constraint_loop_Ok Hin Hc Hne. simpl.
  by eapply pk_columns_recorded.
Qed.

(** One that lists no column records nothing, and a later one passes. *)
Remark primary_key_without_columns :
  primary_key <$> constraint_loop init_state
                    [Sample.constraint "pk_0" (PrimaryKey []); Sample.pk_a]
  = Ok ["a"].
Proof. reflexivity. Qed.

(** C5.  Let a table statement be reached without an earlier failure, its
    name lack the reserved prefix and its sub-nodes be columns and
    constraints.  If its constraint loop meets a PRIMARY KEY constraint when
    the constraints before it were processed without failure and a primary
    key is recorded (the list [primary_key] is not empty), then that
    iteration raises ValueError, Multiple primary keys found, and so does the
    whole run, which writes nothing. *)
Theorem second_primary_key_aborts
    (expressions : list Expression) (output_path : string)
    (before after : list TableStmt) (t : TableStmt)
    (consts1 consts2 : list Constraint) (const : Constraint)
    (columns : list string) (st : ConstState) :
  forallb kind_table_or_index expressions = true ->
  tables_of expressions = before ++ t :: after ->
  is_ok (table_loop (collect_indexes (indexes_of expressions)) [] before) = true ->
  retained t = true ->
  forallb is_node (tbl_expressions t) = true ->
  tbl_constraints t = consts1 ++ const :: consts2 ->
  constraint_loop init_state consts1 = Ok st ->
  primary_key st ≠ [] ->
  const_expressions const = [PrimaryKey columns] ->
  constraint_step st const = Raise (ValueError "Multiple primary keys found")
  /\ convert_sqlite_to_orm expressions output_path
     = (Raise (ValueError "Multiple primary keys found"), []).
Proof.
  intros Hkind Htables Hbefore Hr Hnodes Hconsts Hloop Hpk Hc.
  assert (Hstep : constraint_step st const
                  = Raise (ValueError "Multiple primary keys found")).
  { unfold constraint_step. rewrite Hc. by destruct (primary_key st). }
  split; [done|].
  eapply table_failure_aborts; try done.
  intros lines. by eapply constraint_failure_raises.
Qed.

Lemma second_primary_key_aborts_witness :
  convert_sqlite_to_orm [CreateTable Sample.users; CreateTable Sample.pairs]
                        "schema.py"
  = (Raise (ValueError "Multiple primary keys found"), []).
Proof.
  refine (proj2 (second_primary_key_aborts
            [CreateTable Sample.users; CreateTable Sample.pairs] "schema.py"
            [Sample.users] [] Sample.pairs
            [Sample.pk_a; Sample.uq_b] [] Sample.pk_b ["b"]
            (Build_ConstState ["a"] _) _ _ _ _ _ _ _ _ _));
    try reflexivity.
  discriminate.
Defined.

(** ** C7: foreign keys and their options *)

Lemma append_assoc (s1 s2 s3 : string) : (s1 +:+ s2) +:+ s3 = s1 +:+ s2 +:+ s3.
Proof.
  induction s1 as [|c s1 IH]; [done|].
  change (String c ((s1 +:+ s2) +:+ s3) = String c (s1 +:+ s2 +:+ s3)).
  by rewrite IH.
Qed.

Lemma append_empty_r (s : string) : s +:+ "" = s.
Proof.
  induction s as [|c s IH]; [done|].
  change (String c (s +:+ "") = String c s). by rewrite IH.
Qed.

Lemma join_empty_cons (s : string) (l : list string) :
  join "" (s :: l) = s +:+ join "" l.
Proof.
  unfold join. destruct l; simpl; [by rewrite append_empty_r | done].
Qed.

Lemma fk_options_cascade opts : forall option_str,
  Forall (fun opt => opt = "ON DELETE CASCADE") opts ->
  fk_options opts option_str
  = Ok (option_str +:+ join "" ((fun _ => cascade_modifier) <$> opts)).
Proof.
  induction opts as [|opt opts IH]; intros acc Hall.
  - simpl. by rewrite append_empty_r.
  - inversion Hall as [|? ? -> Hall']; subst.
    change (fk_options ("ON DELETE CASCADE" :: opts) acc)
      with (fk_options opts (acc +:+ cascade_modifier)).
    rewrite IH by done. rewrite fmap_cons, join_empty_cons.
    by rewrite append_assoc.
Qed.

Lemma fk_options_unknown cascades opt rest : forall option_str,
  Forall (fun opt => opt = "ON DELETE CASCADE") cascades ->
  opt ≠ "ON DELETE CASCADE" ->
  fk_options (cascades ++ opt :: rest) option_str
  = Raise (ValueError ("Unknown option " +:+ opt)).
Proof.
  induction cascades as [|c cascades IH]; intros acc Hall Hne; simpl.
  - by rewrite (proj2 (String.eqb_neq _ _) Hne).
  - inversion Hall as [|? ? -> Hall']; subst. simpl. by apply IH.
Qed.

(** C7.  For a constraint whose single expression is a foreign key: when
    every reference option is ON DELETE CASCADE, the iteration appends one
    foreign-key declaration whose modifiers are one cascade-on-delete
    modifier per option and whose referenced columns are written table.column,
    and it changes nothing else (the recorded primary key and the earlier
    declarations stay); when an option is anything else, the iteration raises
    ValueError, Unknown option, with the first such option, and in a table
    that is reached without an earlier failure the whole run raises it and
    writes nothing. *)
Theorem foreign_key_options
    (st : ConstState) (const : Constraint) (columns : list string)
    (reference : Reference) :
  const_expressions const = [ForeignKey columns reference] ->
  (Forall (fun opt => opt = "ON DELETE CASCADE") (ref_options reference) ->
   constraint_step st const
   = Ok {| primary_key := primary_key st;
           table_args := table_args st ++
             [foreign_key_decl (const_name const) columns
                (ref_table reference) (ref_columns reference)
                (join "" ((fun _ => cascade_modifier) <$> ref_options reference))] |})
  /\ (forall cascades opt rest,
        ref_options reference = cascades ++ opt :: rest ->
        Forall (fun opt => opt = "ON DELETE CASCADE") cascades ->
        opt ≠ "ON DELETE CASCADE" ->
        constraint_step st const = Raise (ValueError ("Unknown option " +:+ opt))
        /\ forall expressions output_path before t after consts1 consts2,
             forallb kind_table_or_index expressions = true ->
             tables_of expressions = before ++ t :: after ->
             is_ok (table_loop (collect_indexes (indexes_of expressions)) []
                               before) = true ->
             retained t = true ->
             forallb is_node (tbl_expressions t) = true ->
             tbl_constraints t = consts1 ++ const :: consts2 ->
             constraint_loop init_state consts1 = Ok st ->
             convert_sqlite_to_orm expressions output_path
             = (Raise (ValueError ("Unknown option " +:+ opt)), [])).
Proof.
  intros Hc. split.
  - intros Hall. unfold constraint_step. rewrite Hc.
    rewrite fk_options_cascade by done. reflexivity.
  - intros cascades opt rest Hopts Hall Hne.
    assert (Hstep : constraint_step st const
                    = Raise (ValueError ("Unknown option " +:+ opt))).
    { unfold constraint_step. rewrite Hc, Hopts.
      by rewrite fk_options_unknown. }
    split; [done|].
    intros expressions output_path before t after consts1 consts2
           Hkind Htables Hbefore Hr Hnodes Hconsts Hloop.
    eapply table_failure_aborts; try done.
    intros lines. by eapply constraint_failure_raises.
Qed.

Lemma foreign_key_options_witness :
  constraint_step init_state Sample.fk_cascade
  = Ok {| primary_key := [];
          table_args :=
            ["ForeignKeyConstraint([" +:+ quote "user_id" +:+ "], ["
               +:+ quote "users.id" +:+ "], name=" +:+ quote "fk_user"
               +:+ ", ondelete=" +:+ quote "CASCADE" +:+ ")"] |}
  /\ constraint_step init_state Sample.fk_set_null
     = Raise (ValueError "Unknown option ON DELETE SET NULL")
  /\ convert_sqlite_to_orm [CreateTable Sample.users; CreateTable Sample.sessions]
                           "schema.py"
     = (Raise (ValueError "Unknown option ON DELETE SET NULL"), []).
Proof.
  split; [|split].
  - apply (proj1 (foreign_key_options init_state Sample.fk_cascade _ _ eq_refl)).
    by repeat constructor.
  - apply (proj2 (foreign_key_options init_state Sample.fk_set_null _ _ eq_refl)
                 ["ON DELETE CASCADE"] "ON DELETE SET NULL" []);
      [reflexivity | by repeat constructor | discriminate].
  - refine (proj2 (proj2 (foreign_key_options init_state Sample.fk_set_null _ _
                            eq_refl)
                         ["ON DELETE CASCADE"] "ON DELETE SET NULL" [] _ _ _)
                  [CreateTable Sample.users; CreateTable Sample.sessions]
                  "schema.py" [Sample.users] Sample.sessions [] [] []
                  _ _ _ _ _ _ _);
      try reflexivity; [by repeat constructor | discriminate].
Defined.

(** ** C9: the rendering of the constraint and index block *)

Lemma len_append (s1 s2 : string) : len (s1 +:+ s2) = len s1 + len s2.
Proof.
  induction s1 as [|c s1 IH]; [done|].
  change (len (String c (s1 +:+ s2)) = len (String c s1) + len s2).
  simpl. rewrite IH. lia.
Qed.

(** [len] counts the characters of a UTF-8 string. *)
Lemma len_code_points (s : string) (cps : list N) :
  code_points s = Some cps -> len s = length cps.
Proof.
  assert (Hcons : forall (o : option (list N)) (cp : N) (l : list N),
            cons cp <$> o = Some l -> exists l', o = Some l' /\ l = cp :: l').
  { intros [l'|] cp l; [intros [= <-]; eauto | discriminate]. }
  assert (Hlead : forall c, (128 <=? N_of_ascii c)%N = true ->
            (N_of_ascii c <? 192)%N = false -> continuation c = false).
  { intros c. destruct c as [[] [] [] [] [] [] [] []]; vm_compute; congruence. }
  assert (Hlow : forall c, (N_of_ascii c <? 128)%N = true -> continuation c = false).
  { intros c. destruct c as [[] [] [] [] [] [] [] []]; vm_compute; congruence. }
  assert (H194 : forall c, (N_of_ascii c <? 194)%N = false ->
            (N_of_ascii c <? 128)%N = false -> continuation c = false).
  { intros c. destruct c as [[] [] [] [] [] [] [] []]; vm_compute; congruence. }
  enough (Hn : forall n s cps, String.length s < n ->
                 code_points s = Some cps -> len s = length cps)
    by (apply (Hn (S (String.length s))); lia).
  clear s cps. induction n as [|n IHn]; intros s cps Hlt H; [lia|].
  assert (IH : forall r, String.length r < String.length s ->
                 forall l, code_points r = Some l -> len r = length l).
  { intros r Hr l Hl. apply IHn; [lia | done]. }
  clear IHn Hlt.
  destruct s as [|c0 r0]; [by injection H as <-|].
  cbn [code_points] in H. cbn [len].
  destruct (N_of_ascii c0 <? 128)%N eqn:H0.
  { apply Hcons in H as (l & Hl & ->). rewrite (Hlow _ H0). simpl.
    f_equal. apply IH; [simpl; lia | done]. }
  destruct (N_of_ascii c0 <? 194)%N eqn:H1; [discriminate|].
  rewrite (H194 _ H1 H0).
  destruct (N_of_ascii c0 <? 224)%N.
  { destruct r0 as [|c1 r1]; [discriminate|].
    destruct (continuation c1) eqn:Hc1; [|discriminate].
    apply Hcons in H as (l & Hl & ->). cbn [len]. rewrite Hc1. simpl.
    f_equal. apply IH; [simpl; lia | done]. }
  destruct (N_of_ascii c0 <? 240)%N.
  { destruct r0 as [|c1 [|c2 r2]]; try discriminate.
    destruct (continuation c1) eqn:Hc1; [|discriminate].
    destruct (continuation c2) eqn:Hc2; [|discriminate].
    simpl andb in H.
    destruct (_ && _) in H; [|discriminate].
    apply Hcons in H as (l & Hl & ->). cbn [len]. rewrite Hc1, Hc2. simpl.
    f_equal. apply IH; [simpl; lia | done]. }
  destruct (N_of_ascii c0 <? 245)%N; [|discriminate].
  destruct r0 as [|c1 [|c2 [|c3 r3]]]; try discriminate.
  destruct (continuation c1) eqn:Hc1; [|discriminate].
  destruct (continuation c2) eqn:Hc2; [|discriminate].
  destruct (continuation c3) eqn:Hc3; [|discriminate].
  simpl andb in H.
  destruct (_ && _) in H; [|discriminate].
  apply Hcons in H as (l & Hl & ->). cbn [len]. rewrite Hc1, Hc2, Hc3. simpl.
  f_equal. apply IH; [simpl; lia | done].
Qed.

(** The inline tuple is 24 characters longer than the joined declarations:
    22 before them and 2 after. *)
Remark inline_tuple_length (table_args : list string) :
  len (inline_tuple table_args) = len (join ", " table_args) + 24.
Proof. unfold inline_tuple. rewrite !len_append. simpl. lia. Qed.

Lemma multi_line_block_length (table_args : list string) :
  length (multi_line_block table_args) = length table_args + 2.
Proof.
  unfold multi_line_block. rewrite length_app, length_app, length_map. simpl. lia.
Qed.

Lemma render_multi_line lines table_args :
  MAX_LINE_LENGTH < len (join ", " table_args) + 23 ->
  render_table_args lines table_args = lines ++ multi_line_block table_args.
Proof.
  intros H%Nat.ltb_lt. unfold render_table_args. by rewrite H.
Qed.

Lemma render_inline lines table_args :
  table_args ≠ [] ->
  len (join ", " table_args) + 23 <= MAX_LINE_LENGTH ->
  render_table_args lines table_args = lines ++ [inline_tuple table_args].
Proof.
  intros Hne H. unfold render_table_args.
  rewrite (proj2 (Nat.ltb_ge _ _) H). by destruct table_args.
Qed.

(** The test the code applies to a non-empty list of declarations. *)
Lemma render_table_args_test (lines decls : list string) :
  decls ≠ [] ->
  (MAX_LINE_LENGTH < len (join ", " decls) + 23
   <-> render_table_args lines decls = lines ++ multi_line_block decls)
  /\ (len (join ", " decls) + 23 <= MAX_LINE_LENGTH
      <-> render_table_args lines decls = lines ++ [inline_tuple decls]).
Proof.
  intros Hne.
  assert (Hdiff : lines ++ multi_line_block decls
                  ≠ lines ++ [inline_tuple decls]).
  { intros H%app_inv_head%(f_equal length).
    rewrite multi_line_block_length in H. destruct decls; simpl in H; [done|lia]. }
  split.
  - split; [apply render_multi_line|].
    intros H. destruct (Nat.lt_ge_cases MAX_LINE_LENGTH
                          (len (join ", " decls) + 23)) as [|Hle];
      [done|].
    rewrite (render_inline _ _ Hne Hle) in H. by destruct Hdiff.
  - split; [by apply render_inline|].
    intros H. destruct (Nat.lt_ge_cases MAX_LINE_LENGTH
                          (len (join ", " decls) + 23)) as [Hlt|];
      [|done].
    rewrite (render_multi_line _ _ Hlt) in H. by destruct Hdiff.
Qed.

(** C9.  The test of the code is off by one at the boundary.  The
    single line holding the declarations has 24 characters around them (22
    before, the comma and the bracket after), and the code allows for 23: a
    non-empty list of declarations is rendered as the multi-line block
    exactly when that single line would be longer than 101 characters, and
    inline exactly when it is at most 101 characters long.  So declarations
    of 77 characters when joined are rendered inline, in a line of 101
    characters, above the budget of 100. *)
Theorem inline_block_exceeds_budget (lines decls : list string) :
  decls ≠ [] ->
  (render_table_args lines decls
   = lines ++ ["    __table_args__ = ("]
           ++ ((fun decl => "        " +:+ decl +:+ ",") <$> decls) ++ ["    )"]
   <-> MAX_LINE_LENGTH + 1
       < len ("    __table_args__ = (" +:+ join ", " decls +:+ ",)"))
  /\ (render_table_args lines decls
      = lines ++ ["    __table_args__ = (" +:+ join ", " decls +:+ ",)"]
      <-> len ("    __table_args__ = (" +:+ join ", " decls +:+ ",)")
          <= MAX_LINE_LENGTH + 1)
  /\ (len (join ", " decls) = 77 ->
      render_table_args lines decls
      = lines ++ ["    __table_args__ = (" +:+ join ", " decls +:+ ",)"]
      /\ len ("    __table_args__ = (" +:+ join ", " decls +:+ ",)") = 101
      /\ MAX_LINE_LENGTH
         < len ("    __table_args__ = (" +:+ join ", " decls +:+ ",)")).
Proof.
  intros Hne.
  destruct (render_table_args_test lines decls Hne) as [Hm Hi].
  pose proof (inline_tuple_length decls) as Hlen.
  unfold inline_tuple, multi_line_block in *. unfold MAX_LINE_LENGTH in *.
  split; [|split].
  - rewrite <- Hm. lia.
  - rewrite <- Hi. lia.
  - intros H77. split; [apply Hi; lia | lia].
Qed.

Lemma inline_block_exceeds_budget_witness :
  table_step ∅ [] Sample.tight
  = Ok ["class T(Base):";
        "    " +:+ DQ +:+ DQ +:+ DQ +:+ "ORM class for t." +:+ DQ +:+ DQ +:+ DQ;
        "";
        "    __tablename__ = " +:+ quote "t";
        "    __table_args__ = (PrimaryKeyConstraint(" +:+ quote "id"
          +:+ ", name=" +:+ quote "pk_t_primary_key_constraint_with_long_name"
          +:+ "),)";
        "    id: Mapped[int]"; ""; ""]
  /\ render_table_args []
       ["PrimaryKeyConstraint(" +:+ quote "id" +:+ ", name="
          +:+ quote "pk_t_primary_key_constraint_with_long_name" +:+ ")"]
     = [] ++ ["    __table_args__ = ("
              +:+ join ", "
                    ["PrimaryKeyConstraint(" +:+ quote "id" +:+ ", name="
                       +:+ quote "pk_t_primary_key_constraint_with_long_name"
                       +:+ ")"]
              +:+ ",)"]
  /\ len ("    __table_args__ = ("
          +:+ join ", "
                ["PrimaryKeyConstraint(" +:+ quote "id" +:+ ", name="
                   +:+ quote "pk_t_primary_key_constraint_with_long_name"
                   +:+ ")"]
          +:+ ",)") = 101
  /\ MAX_LINE_LENGTH
     < len ("    __table_args__ = ("
            +:+ join ", "
                  ["PrimaryKeyConstraint(" +:+ quote "id" +:+ ", name="
                     +:+ quote "pk_t_primary_key_constraint_with_long_name"
                     +:+ ")"]
            +:+ ",)").
Proof.
  split; [reflexivity|].
  apply (proj2 (proj2 (inline_block_exceeds_budget [] [_] ltac:(discriminate)))).
  reflexivity.
Defined.

(** ** C6 and C10: indexes and the tables they name *)

(** The translation reads the statements through the two kind tests, the
    table statements in order, and the declarations of the indexes on each
    retained table. *)
Lemma translate_lines_congr e1 e2 :
  forallb is_create e1 = forallb is_create e2 ->
  forallb kind_table_or_index e1 = forallb kind_table_or_index e2 ->
  tables_of e1 = tables_of e2 ->
  (forall t, In t (tables_of e2) -> retained t = true ->
     indexes_on (tbl_name t) (indexes_of e1) = indexes_on (tbl_name t) (indexes_of e2)) ->
  translate_lines e1 = translate_lines e2.
Proof.
  intros Hc Hk Ht Hi. unfold translate_lines. rewrite Hc, Hk, Ht.
  destruct (negb (forallb is_create e2)); [done|].
  destruct (negb (forallb kind_table_or_index e2)); [done|].
  apply table_loop_ext. intros t Hin Hr.
  rewrite !collect_indexes_get. by apply Hi.
Qed.

Lemma convert_congr e1 e2 output_path :
  translate_lines e1 = translate_lines e2 ->
  convert_sqlite_to_orm e1 output_path = convert_sqlite_to_orm e2 output_path.
Proof. intros H. unfold convert_sqlite_to_orm, translate. by rewrite H. Qed.

Lemma block_in_output expressions text t :
  translate expressions = Ok text ->
  t ∈ tables_of expressions ->
  exists pre block post,
    table_step (collect_indexes (indexes_of expressions)) [] t = Ok block
    /\ text = header +:+ join NL (pre ++ block ++ post).
Proof.
  intros (lines & Hlines & ->)%translate_Ok Hin.
  apply translate_lines_Ok in Hlines as [_ Hloop].
  apply table_loop_blocks in Hloop as (blocks & -> & Hblocks).
  apply list_elem_of_split in Hin as (l1 & l2 & Hsplit).
  rewrite Hsplit in Hblocks.
  apply Forall2_app_inv_l in Hblocks as (b1 & b2 & _ & Hb2 & ->).
  inversion Hb2 as [|? block ? b3 Hblock _]; subst.
  exists (concat b1), block, (concat b3). split; [done|].
  by rewrite concat_app.
Qed.

Lemma indexes_on_member table indexes i :
  i ∈ indexes -> ix_table i = table ->
  exists decls1 decls2, indexes_on table indexes = decls1 ++ index_decl i :: decls2.
Proof.
  intros Hin Ht. apply list_elem_of_split. unfold indexes_on.
  apply list_elem_of_fmap. exists i. split; [done|].
  by apply list_elem_of_filter.
Qed.

Lemma forallb_Permutation {A} (f : A -> bool) (l1 l2 : list A) :
  l1 ≡ₚ l2 -> forallb f l1 = forallb f l2.
Proof.
  induction 1 as [|x l1 l2 _ IH|x y l|l1 l2 l3 _ IH1 _ IH2]; simpl.
  - done.
  - by rewrite IH.
  - by destruct (f x), (f y).
  - by rewrite IH1.
Qed.

(** C6.  The dictionary built from the index statements gives, at each table
    name, the declarations of the indexes that name it, in statement order.
    When the translation succeeds, the declaration of every index statement
    naming a retained table T, that is the text Index, the quoted index name,
    the quoted columns and the uniqueness flag, stands in T's block of the
    output after the declarations of T's constraints: on a line of its own
    in the multi-line block, or inside the inline tuple.  The outcome and the
    write depend on the index statements in their order and on the table
    statements in their order, not on how the two interleave: two inputs
    with the same statements, the same sequence of index statements and the
    same sequence of table statements give the same result, and so do an
    index statement just before a table statement and the same index
    statement just after it. *)
Theorem index_joins_its_table (expressions : list Expression) :
  (forall table,
     get_list (collect_indexes (indexes_of expressions)) table
     = indexes_on table (indexes_of expressions))
  /\ (forall text t i,
        translate expressions = Ok text ->
        t ∈ tables_of expressions -> retained t = true ->
        i ∈ indexes_of expressions -> ix_table i = tbl_name t ->
        exists st fields pre post decls1 decls2,
          constraint_loop init_state (tbl_constraints t) = Ok st
          /\ let decl :=
               "Index(" +:+ quote (ix_name i) +:+ ", "
                 +:+ join ", " (map quote (ix_columns i))
                 +:+ (if ix_unique i then ", unique=True" else "") +:+ ")" in
             let decls := table_args st ++ decls1 ++ decl :: decls2 in
             text = header +:+ join NL
                      (pre ++ (block_head t
                               ++ (["    __table_args__ = ("]
                                   ++ ((fun d => "        " +:+ d +:+ ",") <$> decls)
                                   ++ ["    )"])
                               ++ fields ++ [""; ""]) ++ post)
             \/ text = header +:+ join NL
                         (pre ++ (block_head t
                                  ++ ["    __table_args__ = ("
                                        +:+ join ", " decls +:+ ",)"]
                                  ++ fields ++ [""; ""]) ++ post))
  /\ (forall expressions' output_path,
        expressions ≡ₚ expressions' ->
        indexes_of expressions = indexes_of expressions' ->
        tables_of expressions = tables_of expressions' ->
        convert_sqlite_to_orm expressions output_path
        = convert_sqlite_to_orm expressions' output_path)
  /\ (forall pre i t post output_path,
        expressions = pre ++ CreateIndex i :: CreateTable t :: post ->
        convert_sqlite_to_orm expressions output_path
        = convert_sqlite_to_orm (pre ++ CreateTable t :: CreateIndex i :: post)
                                output_path).
Proof.
  assert (Hperm : forall e1 e2 output_path,
            e1 ≡ₚ e2 -> indexes_of e1 = indexes_of e2 ->
            tables_of e1 = tables_of e2 ->
            convert_sqlite_to_orm e1 output_path
            = convert_sqlite_to_orm e2 output_path).
  { intros e1 e2 output_path Hp Hi Ht.
    apply convert_congr, translate_lines_congr;
      [by apply forallb_Permutation | by apply forallb_Permutation | done |].
    intros t' _ _. by rewrite Hi. }
  split; [|split; [|split]].
  - intros table. apply collect_indexes_get.
  - intros text t i Htext Ht Hr Hi Hname.
    destruct (block_in_output _ _ _ Htext Ht) as (pre & block & post & Hblock & ->).
    destruct (table_step_retained _ _ _ Hr Hblock) as (st & fields & _ & Hc & _ & ->).
    destruct (indexes_on_member _ _ _ Hi Hname) as (d1 & d2 & Hd).
    exists st, fields, pre, post, d1, d2. split; [done|].
    rewrite collect_indexes_get, Hd.
    change (index_decl i)
      with ("Index(" +:+ quote (ix_name i) +:+ ", "
              +:+ join ", " (map quote (ix_columns i))
              +:+ (if ix_unique i then ", unique=True" else "") +:+ ")").
    cbv zeta.
    set (decls := table_args st ++ d1 ++ _ :: d2).
    assert (Hne : decls ≠ []).
    { unfold decls. destruct (table_args st), d1; discriminate. }
    destruct (Nat.lt_ge_cases MAX_LINE_LENGTH (len (join ", " decls) + 23))
      as [Hlt|Hle].
    + left. by rewrite (render_multi_line _ _ Hlt).
    + right. by rewrite (render_inline _ _ Hne Hle).
  - intros expressions' output_path. apply Hperm.
  - intros pre i t post output_path ->. apply Hperm.
    + apply Permutation_app_head, perm_swap.
    + by rewrite !indexes_of_app, indexes_of_index, !indexes_of_table,
        indexes_of_index.
    + by rewrite !tables_of_app, tables_of_index, !tables_of_table,
        tables_of_index.
Qed.

Lemma index_joins_its_table_witness :
  (exists text st fields pre post decls1 decls2,
     translate Sample.schema = Ok text
     /\ constraint_loop init_state (tbl_constraints Sample.users) = Ok st
     /\ let decl :=
          "Index(" +:+ quote "ix_users_name" +:+ ", "
            +:+ join ", " [quote "name"] +:+ ", unique=True" +:+ ")" in
        let decls := table_args st ++ decls1 ++ decl :: decls2 in
        text = header +:+ join NL
                 (pre ++ (block_head Sample.users
                          ++ (["    __table_args__ = ("]
                              ++ ((fun d => "        " +:+ d +:+ ",") <$> decls)
                              ++ ["    )"])
                          ++ fields ++ [""; ""]) ++ post)
        \/ text = header +:+ join NL
                    (pre ++ (block_head Sample.users
                             ++ ["    __table_args__ = ("
                                   +:+ join ", " decls +:+ ",)"]
                             ++ fields ++ [""; ""]) ++ post))
  /\ convert_sqlite_to_orm Sample.schema "schema.py"
     = convert_sqlite_to_orm
         [CreateTable Sample.sqlite_sequence; CreateTable Sample.users;
          CreateIndex Sample.ix_users_name; CreateTable Sample.order_items]
         "schema.py"
  /\ convert_sqlite_to_orm Sample.schema "schema.py"
     = convert_sqlite_to_orm
         [CreateTable Sample.sqlite_sequence; CreateTable Sample.users;
          CreateTable Sample.order_items; CreateIndex Sample.ix_users_name]
         "schema.py".
Proof.
  split; [|split].
  - eexists.
    destruct (proj1 (proj2 (index_joins_its_table Sample.schema))
                _ Sample.users Sample.ix_users_name eq_refl)
      as (st & fields & pre & post & d1 & d2 & H);
      [by right; left | reflexivity | by left | reflexivity |].
    exists st, fields, pre, post, d1, d2. split; [reflexivity | exact H].
  - apply (proj2 (proj2 (proj2 (index_joins_its_table Sample.schema)))
             [CreateTable Sample.sqlite_sequence] Sample.ix_users_name
             Sample.users [CreateTable Sample.order_items]); reflexivity.
  - apply (proj1 (proj2 (proj2 (index_joins_its_table Sample.schema))));
      [|reflexivity|reflexivity].
    apply perm_skip. etransitivity; [apply perm_swap|]. apply perm_skip, perm_swap.
Defined.

(** C10.  An index statement whose table name is the name of no retained
    table statement of the input can be removed without changing the outcome
    or the write: it adds nothing to the output and raises nothing. *)
Theorem unmatched_index_dropped
    (pre post : list Expression) (i : IndexStmt) (output_path : string) :
  (forall t, t ∈ tables_of (pre ++ post) -> retained t = true ->
             tbl_name t ≠ ix_table i) ->
  convert_sqlite_to_orm (pre ++ CreateIndex i :: post) output_path
  = convert_sqlite_to_orm (pre ++ post) output_path.
Proof.
  intros Hno. apply convert_congr, translate_lines_congr.
  - by rewrite !forallb_app.
  - by rewrite !forallb_app.
  - by rewrite !tables_of_app, tables_of_index.
  - intros t Hin%list_elem_of_In Hr. unfold indexes_on. f_equal.
    rewrite !indexes_of_app, indexes_of_index, !filter_app, filter_cons.
    rewrite decide_False; [done|]. intros Heq. by eapply Hno.
Qed.

Lemma unmatched_index_dropped_witness :
  convert_sqlite_to_orm
    [CreateTable Sample.sqlite_sequence;
     CreateIndex {| ix_name := "ix_seq"; ix_unique := false;
                    ix_table := "sqlite_sequence"; ix_columns := ["name"] |};
     CreateIndex {| ix_name := "ix_gone"; ix_unique := true;
                    ix_table := "missing"; ix_columns := ["a"; "b"] |};
     CreateTable Sample.users]
    "schema.py"
  = convert_sqlite_to_orm
      [CreateTable Sample.sqlite_sequence; CreateTable Sample.users] "schema.py".
Proof.
  etransitivity.
  - apply (unmatched_index_dropped [CreateTable Sample.sqlite_sequence]
             [CreateIndex {| ix_name := "ix_gone"; ix_unique := true;
                             ix_table := "missing"; ix_columns := ["a"; "b"] |};
              CreateTable Sample.users]).
    intros t Ht Hr. simpl in Ht.
    apply elem_of_cons in Ht as [->|Ht]; [discriminate|].
    apply list_elem_of_singleton in Ht as ->. discriminate.
  - apply (unmatched_index_dropped [CreateTable Sample.sqlite_sequence]
             [CreateTable Sample.users]).
    intros t Ht Hr. simpl in Ht.
    apply elem_of_cons in Ht as [->|Ht]; [discriminate|].
    apply list_elem_of_singleton in Ht as ->. discriminate.
Defined.

(** ** C8: nothing is written unless the whole translation succeeds *)

Lemma table_step_raise_any d lines t e :
  table_step d [] t = Raise e -> table_step d lines t = Raise e.
Proof. intros H. by rewrite table_step_app, H. Qed.

Lemma forallb_false_elem {A} (f : A -> bool) (l : list A) :
  forallb f l = false -> exists x, x ∈ l /\ f x = false.
Proof.
  induction l as [|x l IH]; simpl; [done|].
  destruct (f x) eqn:Hx; simpl.
  - intros (y & Hy & Hfy)%IH. exists y. split; [by right | done].
  - intros _. exists x. split; [by left | done].
Qed.

Lemma table_loop_Raise d tables e : forall acc,
  table_loop d acc tables = Raise e ->
  exists before t after lines,
    tables = before ++ t :: after
    /\ table_loop d acc before = Ok lines
    /\ table_step d lines t = Raise e.
Proof.
  induction tables as [|t tables IH]; intros acc H; simpl in H; [discriminate|].
  destruct (table_step d acc t) as [lines|e'] eqn:Ht; simpl in H.
  - destruct (IH _ H) as (before & t' & after & lines' & -> & Hb & Ht').
    exists (t :: before), t', after, lines'. split; [done|]. split; [|done].
    simpl. by rewrite Ht.
  - injection H as ->. by exists [], t, tables, acc.
Qed.

(** C8.  The run writes once, the complete text, when the translation
    succeeds, and writes nothing when the translation raises: the list of
    writes is empty exactly when the run raises, and the files are then as
    they were.  Every failure is of one of three kinds, and each of them
    ends the run with the exception and no write: a statement that is no
    CREATE, a CREATE of another kind than TABLE or INDEX, or the failure of a
    check inside a table statement that is reached without an earlier
    failure. *)
Theorem no_output_unless_success
    (expressions : list Expression) (output_path : string) :
  (forall text, translate expressions = Ok text ->
     convert_sqlite_to_orm expressions output_path
     = (Ok tt, [WriteText output_path text]))
  /\ (forall e, translate expressions = Raise e ->
        convert_sqlite_to_orm expressions output_path = (Raise e, []))
  /\ ((convert_sqlite_to_orm expressions output_path).2 = []
      <-> exists e, (convert_sqlite_to_orm expressions output_path).1 = Raise e)
  /\ (forall fs e,
        (convert_sqlite_to_orm expressions output_path).1 = Raise e ->
        apply_events fs (convert_sqlite_to_orm expressions output_path).2 = fs)
  /\ (forall e,
        (convert_sqlite_to_orm expressions output_path).1 = Raise e ->
        NotCreate ∈ expressions \/ CreateOther ∈ expressions
        \/ exists before t after lines,
             tables_of expressions = before ++ t :: after
             /\ table_loop (collect_indexes (indexes_of expressions)) [] before
                = Ok lines
             /\ table_step (collect_indexes (indexes_of expressions)) lines t
                = Raise e)
  /\ (NotCreate ∈ expressions ->
      exists e, convert_sqlite_to_orm expressions output_path = (Raise e, []))
  /\ (CreateOther ∈ expressions ->
      exists e, convert_sqlite_to_orm expressions output_path = (Raise e, []))
  /\ (forall before t after e,
        forallb kind_table_or_index expressions = true ->
        tables_of expressions = before ++ t :: after ->
        is_ok (table_loop (collect_indexes (indexes_of expressions)) [] before)
          = true ->
        table_step (collect_indexes (indexes_of expressions)) [] t = Raise e ->
        convert_sqlite_to_orm expressions output_path = (Raise e, [])).
Proof.
  assert (Hraise : forall e,
            (convert_sqlite_to_orm expressions output_path).1 = Raise e ->
            translate_lines expressions = Raise e).
  { unfold convert_sqlite_to_orm, translate. intros e.
    destruct (translate_lines expressions); simpl;
      [discriminate | by intros [= ->]]. }
  split; [|split; [|split; [|split; [|split; [|split; [|split]]]]]].
  - intros text H. unfold convert_sqlite_to_orm. by rewrite H.
  - intros e H. unfold convert_sqlite_to_orm. by rewrite H.
  - unfold convert_sqlite_to_orm. destruct (translate expressions); simpl.
    + split; [discriminate | by intros [e He]].
    + split; [intros _; by eexists | done].
  - intros fs e. unfold convert_sqlite_to_orm.
    destruct (translate expressions); simpl; [discriminate | done].
  - intros e He%Hraise. unfold translate_lines in He.
    destruct (forallb is_create expressions) eqn:Hc; simpl in He.
    2:{ left. apply forallb_false_elem in Hc as (x & Hx & Hfx). by destruct x. }
    destruct (forallb kind_table_or_index expressions) eqn:Hk; simpl in He.
    2:{ apply forallb_false_elem in Hk as (x & Hx & Hfx).
        destruct x; try discriminate; auto. }
    right; right. by apply table_loop_Raise.
  - intros Hin. unfold convert_sqlite_to_orm, translate, translate_lines.
    destruct (forallb is_create expressions) eqn:Hc; simpl; [|eauto].
    rewrite forallb_forall in Hc. apply list_elem_of_In, Hc in Hin. discriminate.
  - intros Hin. unfold convert_sqlite_to_orm, translate, translate_lines.
    destruct (forallb is_create expressions); simpl; [|eauto].
    destruct (forallb kind_table_or_index expressions) eqn:Hk; simpl; [|eauto].
    rewrite forallb_forall in Hk. apply list_elem_of_In, Hk in Hin. discriminate.
  - intros before t after e Hk Ht Hb Hstep.
    eapply table_failure_aborts; try done.
    intros lines. by apply table_step_raise_any.
Qed.

Lemma no_output_unless_success_witness :
  convert_sqlite_to_orm [CreateTable Sample.users; CreateTable Sample.blobs]
                        "schema.py"
  = (Raise (TypeError "Unknown column type "), [])
  /\ (exists e, convert_sqlite_to_orm [CreateTable Sample.users; NotCreate]
                                      "schema.py" = (Raise e, []))
  /\ (exists e, convert_sqlite_to_orm [CreateTable Sample.users; CreateOther]
                                      "schema.py" = (Raise e, []))
  /\ (exists text,
        convert_sqlite_to_orm [CreateTable Sample.users] "schema.py"
        = (Ok tt, [WriteText "schema.py" text])).
Proof.
  split; [|split; [|split]].
  - apply (proj2 (proj2 (proj2 (proj2 (proj2 (proj2 (proj2
             (no_output_unless_success
                [CreateTable Sample.users; CreateTable Sample.blobs]
                "schema.py")))))))
             [Sample.users] Sample.blobs []); reflexivity.
  - apply (proj1 (proj2 (proj2 (proj2 (proj2 (proj2
             (no_output_unless_success
                [CreateTable Sample.users; NotCreate] "schema.py"))))))).
    by right; left.
  - apply (proj1 (proj2 (proj2 (proj2 (proj2 (proj2 (proj2
             (no_output_unless_success
                [CreateTable Sample.users; CreateOther] "schema.py")))))))).
    by right; left.
  - eexists.
    apply (proj1 (no_output_unless_success [CreateTable Sample.users] "schema.py")).
    vm_compute; reflexivity.
Defined.

(** * Further properties *)

(** ** The type mapping *)

(** X1.  A type tag mapped to a fixed pair gives that pair when the parsed
    type has no argument, and raises ValueError as soon as it has one. *)
Theorem fixed_mapping_takes_no_argument
    (kind : DataType) (map_python map_alchemy : string) :
  SQL_TYPE_MAP (dt_this kind) = Some (Fixed map_python map_alchemy) ->
  (dt_expressions kind = [] <-> map_type kind = Ok (map_python, map_alchemy))
  /\ (dt_expressions kind ≠ [] <->
      map_type kind
      = Raise (ValueError "Simple mapping types should not have expressions")).
Proof.
  intros H. unfold map_type. rewrite H.
  destruct (dt_expressions kind); simpl; split; split; try done.
Qed.

Lemma fixed_mapping_takes_no_argument_witness :
  map_type {| dt_this := BIGINT; dt_expressions := [] |}
    = Ok ("int", "BigInteger()")
  /\ map_type {| dt_this := DATETIME; dt_expressions := ["6"] |}
     = Raise (ValueError "Simple mapping types should not have expressions").
Proof.
  split.
  - apply (proj1 (proj1 (fixed_mapping_takes_no_argument
             {| dt_this := BIGINT; dt_expressions := [] |} _ _ eq_refl)));
      reflexivity.
  - apply (proj1 (proj2 (fixed_mapping_takes_no_argument
             {| dt_this := DATETIME; dt_expressions := ["6"] |} _ _ eq_refl)));
      discriminate.
Defined.

(** X2.  Whatever the parsed type, a successful mapping gives one of the four
    semantic types, and a storage type that is empty or a call of one of the
    storage types the header imports. *)
Theorem mapping_stays_within_imports
    (kind : DataType) (map_python map_alchemy : string) :
  map_type kind = Ok (map_python, map_alchemy) ->
  map_python ∈ semantic_types
  /\ (map_alchemy = ""
      \/ exists name args,
           name ∈ storage_names /\ map_alchemy = name +:+ "(" +:+ args +:+ ")").
Proof.
  unfold map_type, semantic_types, storage_names.
  destruct kind as [tag args]; simpl.
  destruct tag; simpl;
    try (destruct (truthy args); [discriminate|]; intros [= <- <-];
         split; [set_solver|]).
  - unfold parse_varchar; simpl. destruct args as [|n [|]]; try discriminate.
    destruct (isdigit n); simpl; [|discriminate]. intros [= <- <-].
    split; [set_solver|]. right. exists "String", n. split; [set_solver|done].
  - right. exists "Text", "". split; [set_solver|done].
  - right. exists "SmallInteger", "". split; [set_solver|done].
  - right. exists "BigInteger", "". split; [set_solver|done].
  - by left.
  - unfold parse_decimal; simpl.
    destruct args as [|p [|s [|]]]; try discriminate.
    + intros [= <- <-]. split; [set_solver | by left].
    + destruct (isdigit p), (isdigit s); simpl; try discriminate.
      intros [= <- <-]. split; [set_solver|]. right.
      exists "Numeric", (p +:+ ", " +:+ s). split; [set_solver|].
      by rewrite !append_assoc.
  - by left.
  - discriminate.
Qed.

Lemma mapping_stays_within_imports_witness :
  "float" ∈ semantic_types
  /\ ("Numeric(10, 2)" = ""
      \/ exists name args,
           name ∈ storage_names /\ "Numeric(10, 2)" = name +:+ "(" +:+ args +:+ ")").
Proof.
  apply (mapping_stays_within_imports
           {| dt_this := DECIMAL; dt_expressions := ["10"; "2"] |}).
  reflexivity.
Defined.

(** ** Columns *)

Lemma column_loop_split pk cols1 cols2 : forall lines,
  column_loop pk lines (cols1 ++ cols2)
  = column_loop pk lines cols1 ≫= (fun lines' => column_loop pk lines' cols2).
Proof.
  induction cols1 as [|c cols1 IH]; intros lines; simpl; [done|].
  destruct (column_step pk lines c); simpl; [apply IH | done].
Qed.

Lemma column_step_raise_any pk lines col e :
  column_step pk [] col = Raise e -> column_step pk lines col = Raise e.
Proof. intros H. by rewrite column_step_app, H. Qed.

Lemma column_failure_raises d lines t st cols1 col cols2 e :
  retained t = true ->
  forallb is_node (tbl_expressions t) = true ->
  constraint_loop init_state (tbl_constraints t) = Ok st ->
  tbl_columns t = cols1 ++ col :: cols2 ->
  is_ok (column_loop (primary_key st) [] cols1) = true ->
  column_step (primary_key st) [] col = Raise e ->
  table_step d lines t = Raise e.
Proof.
  intros Hr%negb_true_iff Hnodes Hc Hcols Hok Hstep.
  unfold table_step. rewrite Hr, Hnodes. simpl.
  unfold init_state in Hc. rewrite Hc, Hcols. simpl.
  rewrite column_loop_split, column_loop_app.
  destruct (column_loop (primary_key st) [] cols1); [simpl | discriminate].
  by rewrite (column_step_raise_any _ _ _ _ Hstep).
Qed.

(** X3.  A column whose type tag is not in the mapping raises TypeError,
    whatever its arguments, its constraints and the primary key; when its
    table is reached and the columns before it pass, the run ends with that
    exception and writes nothing. *)
Theorem unknown_column_type_aborts
    (expressions : list Expression) (output_path : string)
    (before after : list TableStmt) (t : TableStmt) (st : ConstState)
    (cols1 cols2 : list ColumnDef) (col : ColumnDef) (tag : string) :
  dt_this (col_kind col) = OtherType tag ->
  (forall pk lines,
     column_step pk lines col = Raise (TypeError "Unknown column type "))
  /\ (forallb kind_table_or_index expressions = true ->
      tables_of expressions = before ++ t :: after ->
      is_ok (table_loop (collect_indexes (indexes_of expressions)) [] before)
        = true ->
      retained t = true ->
      forallb is_node (tbl_expressions t) = true ->
      constraint_loop init_state (tbl_constraints t) = Ok st ->
      tbl_columns t = cols1 ++ col :: cols2 ->
      is_ok (column_loop (primary_key st) [] cols1) = true ->
      convert_sqlite_to_orm expressions output_path
      = (Raise (TypeError "Unknown column type "), [])).
Proof.
  intros Htag.
  assert (Hstep : forall pk lines,
            column_step pk lines col = Raise (TypeError "Unknown column type ")).
  { intros pk lines. unfold column_step, map_type. by rewrite Htag. }
  split; [done|].
  intros Hk Ht Hb Hr Hn Hc Hcols Hok.
  eapply table_failure_aborts; try done.
  intros lines. by eapply column_failure_raises.
Qed.

Lemma unknown_column_type_aborts_witness :
  convert_sqlite_to_orm [CreateTable Sample.users; CreateTable Sample.blobs]
                        "schema.py"
  = (Raise (TypeError "Unknown column type "), []).
Proof.
  refine (proj2 (unknown_column_type_aborts
            [CreateTable Sample.users; CreateTable Sample.blobs] "schema.py"
            [Sample.users] [] Sample.blobs init_state
            [Sample.column "id" INT [] [NotNullColumnConstraint]] []
            (Sample.column "data" (OtherType "BLOB") [] []) "BLOB" eq_refl)
            _ _ _ _ _ _ _ _); reflexivity.
Defined.

(** X4.  A column passes exactly when its type maps and all its constraints
    are not-null constraints; any other column constraint on a column whose
    type maps raises TypeError.  When it passes, its field declaration carries
    the optional marker exactly when the column has no constraint at all and
    its name is not in the primary key: a not-null column is never optional,
    in the primary key or not. *)
Theorem column_outcome
    (pk lines : list string) (col : ColumnDef) :
  (is_ok (column_step pk lines col) = true
   <-> is_ok (map_type (col_kind col)) = true
       /\ Forall (fun k => k = NotNullColumnConstraint) (col_constraints col))
  /\ (is_ok (map_type (col_kind col)) = true ->
      OtherColumnConstraint ∈ col_constraints col ->
      column_step pk lines col = Raise (TypeError "Unknown column constraint type"))
  /\ (forall lines',
        column_step pk lines col = Ok lines' ->
        exists map_python map_alchemy,
          map_type (col_kind col) = Ok (map_python, map_alchemy)
          /\ lines' = lines ++
               [field_decl (col_name col) map_python
                  (if bool_decide (col_constraints col = [] /\ col_name col ∉ pk)
                   then " | None" else "")
                  (annotation map_alchemy)]).
Proof.
  assert (Hall : forall consts b,
            Forall (fun k => k = NotNullColumnConstraint) consts ->
            column_constraints consts b = Ok (if truthy consts then false else b)).
  { induction consts as [|k consts IH]; intros b H; [done|].
    inversion H as [|? ? -> H']; subst. simpl. rewrite (IH _ H').
    by destruct consts. }
  assert (Hother : forall consts b,
            OtherColumnConstraint ∈ consts ->
            column_constraints consts b
            = Raise (TypeError "Unknown column constraint type")).
  { induction consts as [|k consts IH]; intros b H.
    - by apply not_elem_of_nil in H.
    - destruct k; simpl; [|done]. apply IH.
      by apply elem_of_cons in H as [|]. }
  split; [|split].
  - unfold column_step. split.
    + destruct (map_type (col_kind col)) as [[py al]|]; simpl; [|discriminate].
      destruct (column_constraints _ true) eqn:Hc; simpl; [|discriminate].
      apply column_constraints_Ok in Hc as [Hc _]. done.
    + intros [Hty Hc].
      destruct (map_type (col_kind col)) as [[py al]|]; simpl; [|discriminate].
      by rewrite (Hall _ _ Hc).
  - intros Hty Hin. unfold column_step.
    destruct (map_type (col_kind col)) as [[py al]|]; simpl; [|discriminate].
    by rewrite (Hother _ _ Hin).
  - intros lines' H.
    apply column_step_Ok in H as (line & (py & al & b & Hty & Hb & ->) & ->).
    exists py, al. split; [done|]. do 3 f_equal.
    apply column_constraints_Ok in Hb as [_ ->]. unfold optional_suffix.
    destruct (col_constraints col) as [|k consts];
      repeat case_bool_decide; simpl; try done; try tauto;
      match goal with H : _ /\ _ |- _ => by destruct H end.
Qed.

Lemma column_outcome_witness :
  column_step ["a"] [] (Sample.column "b" INT [] [OtherColumnConstraint])
    = Raise (TypeError "Unknown column constraint type")
  /\ exists map_python map_alchemy,
       map_type (col_kind (Sample.column "b" TEXT [] [])) = Ok (map_python, map_alchemy)
       /\ ["    b: Mapped[str | None] = mapped_column(Text())"]
          = [] ++ [field_decl "b" map_python
                     (if bool_decide (@nil ColumnConstraintKind = [] /\ "b" ∉ ["a"])
                      then " | None" else "")
                     (annotation map_alchemy)].
Proof.
  split.
  - apply (proj1 (proj2 (column_outcome ["a"] []
             (Sample.column "b" INT [] [OtherColumnConstraint])))).
    + reflexivity.
    + by left.
  - apply (proj2 (proj2 (column_outcome ["a"] [] (Sample.column "b" TEXT [] [])))).
    reflexivity.
Defined.

(** ** Table-level constraints *)

(** X5.  A constraint that carries no expression or more than one raises
    ValueError, and one whose expression is of no known kind raises
    TypeError, whatever was recorded before; when its table is reached and
    the constraints before it pass, the run ends with that exception and
    writes nothing, whatever the columns of the table are. *)
Theorem malformed_constraint_aborts
    (expressions : list Expression) (output_path : string)
    (before after : list TableStmt) (t : TableStmt)
    (consts1 consts2 : list Constraint) (const : Constraint)
    (st : ConstState) (e : exn) :
  (length (const_expressions const) ≠ 1
   /\ e = ValueError "Invalid constraint definition: only single expression allowed")
  \/ (const_expressions const = [OtherConstraintKind]
      /\ e = TypeError "Unknown constraint ") ->
  constraint_step st const = Raise e
  /\ (forallb kind_table_or_index expressions = true ->
      tables_of expressions = before ++ t :: after ->
      is_ok (table_loop (collect_indexes (indexes_of expressions)) [] before)
        = true ->
      retained t = true ->
      forallb is_node (tbl_expressions t) = true ->
      tbl_constraints t = consts1 ++ const :: consts2 ->
      constraint_loop init_state consts1 = Ok st ->
      convert_sqlite_to_orm expressions output_path = (Raise e, [])).
Proof.
  intros H.
  assert (Hstep : constraint_step st const = Raise e).
  { unfold constraint_step. destruct H as [[Hlen ->]|[-> ->]]; [|done].
    destruct (const_expressions const) as [|this [|]]; simpl in Hlen; done. }
  split; [done|].
  intros Hk Ht Hb Hr Hn Hc Hloop.
  eapply table_failure_aborts; try done.
  intros lines. by eapply constraint_failure_raises.
Qed.

Lemma malformed_constraint_aborts_witness :
  convert_sqlite_to_orm
    [CreateTable (Sample.table "t"
       [Sample.pk_a;
        {| const_name := "c";
           const_expressions :=
             [UniqueColumnConstraint ["a"]; CheckColumnConstraint "a > 0"] |}]
       [Sample.column "a" (OtherType "BLOB") [] []])]
    "schema.py"
  = (Raise (ValueError
       "Invalid constraint definition: only single expression allowed"), []).
Proof.
  refine (proj2 (malformed_constraint_aborts _ "schema.py" [] [] _
            [Sample.pk_a] []
            {| const_name := "c";
               const_expressions :=
                 [UniqueColumnConstraint ["a"]; CheckColumnConstraint "a > 0"] |}
            (Build_ConstState ["a"] _) _ (or_introl (conj _ eq_refl)))
            _ _ _ _ _ _ _); try reflexivity.
  simpl. lia.
Defined.

(** X6.  When the constraints of a table pass, no PRIMARY KEY constraint
    follows one that lists a column: at most one of them records columns,
    and the recorded primary key is the column list of that one. *)
Theorem one_primary_key_on_success
    (consts1 consts2 consts3 : list Constraint) (const1 const2 : Constraint)
    (columns1 columns2 : list string) (st : ConstState) :
  constraint_loop init_state (consts1 ++ const1 :: consts2 ++ const2 :: consts3)
    = Ok st ->
  const_expressions const1 = [PrimaryKey columns1] ->
  const_expressions const2 = [PrimaryKey columns2] ->
  columns1 = [] /\ pk_columns consts1 = [] /\ pk_columns consts2 = []
  /\ primary_key st = columns2 ++ pk_columns consts3.
Proof.
  intros Hloop H1 H2.
  assert (Hpk := proj1 (constraint_loop_Ok _ _ _ Hloop)). simpl in Hpk.
  rewrite constraint_loop_app in Hloop. inv_bind Hloop.
  change (const1 :: consts2 ++ const2 :: consts3)
    with ((const1 :: consts2) ++ const2 :: consts3) in Hloop.
  rewrite constraint_loop_app in Hloop. inv_bind Hloop.
  simpl in Hloop. inv_bind Hloop.
  assert (Hempty : primary_key a0 = []).
  { unfold constraint_step in Ha1. rewrite H2 in Ha1.
    destruct (primary_key a0); [done | discriminate]. }
  apply constraint_loop_Ok in Ha0 as [Hpk0 _].
  apply constraint_loop_Ok in Ha as [Hpk1 _]. simpl in Hpk1.
  rewrite Hempty, Hpk1, pk_columns_cons in Hpk0.
  symmetry in Hpk0.
  apply app_eq_nil in Hpk0 as [Hc1 [Hc Hc2]%app_eq_nil].
  unfold pk_columns in Hc. simpl in Hc. rewrite H1 in Hc. simpl in Hc.
  rewrite app_nil_r in Hc.
  repeat split; try done.
  rewrite Hpk.
  assert (Hsplit : forall l1 l2, pk_columns (l1 ++ l2) = pk_columns l1 ++ pk_columns l2).
  { induction l1 as [|c l1 IH]; intros l2; [done|].
    change ((c :: l1) ++ l2) with (c :: (l1 ++ l2)).
    by rewrite pk_columns_cons, IH, (pk_columns_cons c l1), app_assoc. }
  rewrite Hsplit, Hc1, pk_columns_cons, Hsplit, Hc2, (pk_columns_cons const2).
  unfold pk_columns at 1 2. simpl. rewrite H1, H2, Hc. simpl.
  by rewrite app_nil_r.
Qed.

Lemma one_primary_key_on_success_witness :
  exists st,
    constraint_loop init_state
      [Sample.constraint "pk_0" (PrimaryKey []); Sample.uq_b; Sample.pk_a] = Ok st
    /\ @nil string = [] /\ pk_columns [] = [] /\ pk_columns [Sample.uq_b] = []
    /\ primary_key st = ["a"] ++ pk_columns [].
Proof.
  eexists. split; [vm_compute; reflexivity|].
  apply (one_primary_key_on_success [] [Sample.uq_b] []
           (Sample.constraint "pk_0" (PrimaryKey [])) Sample.pk_a [] ["a"]);
    reflexivity.
Defined.

(** ** Statements and outcome *)

(** X7.  The two tests on the kinds of the statements come before any table
    is looked at: a statement that is no CREATE ends the run with the first
    message, and otherwise a CREATE of another kind than TABLE or INDEX ends
    it with the second, whatever the tables and indexes of the input are;
    nothing is written. *)
Theorem statement_kinds_checked_first
    (expressions : list Expression) (output_path : string) :
  (NotCreate ∈ expressions ->
   convert_sqlite_to_orm expressions output_path
   = (Raise (ValueError "Input file must contain only CREATE TABLE statements."),
      []))
  /\ (NotCreate ∉ expressions -> CreateOther ∈ expressions ->
      convert_sqlite_to_orm expressions output_path
      = (Raise (ValueError
           "Input file must contain only CREATE TABLE and CREATE INDEX statements."),
         [])).
Proof.
  unfold convert_sqlite_to_orm, translate, translate_lines. split.
  - intros Hin. destruct (forallb is_create expressions) eqn:Hc; [|done].
    rewrite forallb_forall in Hc. apply list_elem_of_In, Hc in Hin. discriminate.
  - intros Hnot Hin.
    destruct (forallb is_create expressions) eqn:Hc.
    + destruct (forallb kind_table_or_index expressions) eqn:Hk; [|done].
      rewrite forallb_forall in Hk. apply list_elem_of_In, Hk in Hin. discriminate.
    + apply forallb_false_elem in Hc as (x & Hx & Hfx). by destruct x.
Qed.

Lemma statement_kinds_checked_first_witness :
  convert_sqlite_to_orm [CreateTable Sample.blobs; CreateOther; NotCreate]
                        "schema.py"
  = (Raise (ValueError "Input file must contain only CREATE TABLE statements."),
     [])
  /\ convert_sqlite_to_orm [CreateTable Sample.blobs; CreateOther] "schema.py"
     = (Raise (ValueError
          "Input file must contain only CREATE TABLE and CREATE INDEX statements."),
        []).
Proof.
  split.
  - apply (proj1 (statement_kinds_checked_first
             [CreateTable Sample.blobs; CreateOther; NotCreate] "schema.py")).
    by right; right; left.
  - apply (proj2 (statement_kinds_checked_first
             [CreateTable Sample.blobs; CreateOther] "schema.py")).
    + intros H. apply elem_of_cons in H as [H|H]; [discriminate|].
      apply list_elem_of_singleton in H. discriminate.
    + by right; left.
Defined.

Lemma column_loop_outcome pk cols lines :
  outcome (column_loop pk lines cols) = outcome (column_loop pk [] cols).
Proof.
  rewrite column_loop_app. by destruct (column_loop pk [] cols).
Qed.

Lemma table_step_outcome d1 d2 lines1 lines2 t :
  outcome (table_step d1 lines1 t) = outcome (table_step d2 lines2 t).
Proof.
  unfold table_step.
  destruct (startswith (tbl_name t) "sqlite_"); [done|].
  destruct (negb (forallb is_node (tbl_expressions t))); [done|].
  destruct (constraint_loop _ _) as [st|]; simpl; [|done].
  set (l1 := render_table_args _ (_ ++ get_list d1 _)).
  set (l2 := render_table_args _ (_ ++ get_list d2 _)).
  pose proof (column_loop_outcome (primary_key st) (tbl_columns t) l1) as H1.
  pose proof (column_loop_outcome (primary_key st) (tbl_columns t) l2) as H2.
  destruct (column_loop _ l1 _), (column_loop _ l2 _),
    (column_loop _ [] _); simpl in *; congruence.
Qed.

Lemma table_loop_outcome d1 d2 tables : forall lines1 lines2,
  outcome (table_loop d1 lines1 tables) = outcome (table_loop d2 lines2 tables).
Proof.
  induction tables as [|t tables IH]; intros lines1 lines2; simpl; [done|].
  pose proof (table_step_outcome d1 d2 lines1 lines2 t) as H.
  destruct (table_step d1 lines1 t), (table_step d2 lines2 t);
    simpl in *; try discriminate; [apply IH | congruence].
Qed.

Lemma translate_lines_outcome e1 e2 :
  forallb is_create e1 = forallb is_create e2 ->
  forallb kind_table_or_index e1 = forallb kind_table_or_index e2 ->
  tables_of e1 = tables_of e2 ->
  outcome (translate_lines e1) = outcome (translate_lines e2).
Proof.
  intros Hc Hk Ht. unfold translate_lines. rewrite Hc, Hk, Ht.
  destruct (negb (forallb is_create e2)); [done|].
  destruct (negb (forallb kind_table_or_index e2)); [done|].
  apply table_loop_outcome.
Qed.

Lemma convert_outcome e output_path :
  (convert_sqlite_to_orm e output_path).1 = outcome (translate_lines e).
Proof.
  unfold convert_sqlite_to_orm, translate.
  by destruct (translate_lines e).
Qed.

(** X8.  Index statements have no part in whether the run succeeds or in the
    exception it raises: with an index statement added anywhere, whatever
    table it names and whatever its columns, the run ends the same way. *)
Theorem index_never_changes_outcome
    (pre post : list Expression) (i : IndexStmt) (output_path : string) :
  (convert_sqlite_to_orm (pre ++ CreateIndex i :: post) output_path).1
  = (convert_sqlite_to_orm (pre ++ post) output_path).1.
Proof.
  rewrite !convert_outcome. apply translate_lines_outcome.
  - by rewrite !forallb_app.
  - by rewrite !forallb_app.
  - by rewrite !tables_of_app, tables_of_index.
Qed.

(** X9.  The run succeeds exactly when every statement is a CREATE TABLE or a
    CREATE INDEX and every table statement translates when taken alone,
    without any index: the tables are checked independently of one another,
    and a table with the reserved prefix always passes. *)
Theorem success_is_per_table
    (expressions : list Expression) (output_path : string) :
  (is_ok (convert_sqlite_to_orm expressions output_path).1
   = forallb kind_table_or_index expressions
     && forallb valid_alone (tables_of expressions))
  /\ forall t, retained t = false -> valid_alone t = true.
Proof.
  split.
  - rewrite convert_outcome. unfold translate_lines.
    destruct (forallb kind_table_or_index expressions) eqn:Hk.
    2:{ by destruct (forallb is_create expressions). }
    rewrite (kinds_are_create _ Hk). simpl.
    generalize (collect_indexes (indexes_of expressions)) as d.
    generalize (@nil string) as lines.
    induction (tables_of expressions) as [|t tables IH]; intros lines d; [done|].
    simpl. unfold valid_alone at 1.
    pose proof (table_step_outcome d ∅ lines [] t) as H.
    destruct (table_step d lines t), (table_step ∅ [] t);
      simpl in *; try discriminate; [apply IH | done].
  - intros t Hr. unfold valid_alone. by rewrite table_step_skipped.
Qed.

Lemma success_is_per_table_witness :
  valid_alone Sample.sqlite_sequence = true.
Proof.
  apply (proj2 (success_is_per_table [] "schema.py") Sample.sqlite_sequence).
  reflexivity.
Defined.

(** ** The constraint and index block *)



(** X11.  Whenever the constraint and index block is a single line, that line
    is the inline tuple of a non-empty list of declarations and is at most
    101 characters long. *)
Theorem inline_block_is_bounded (lines decls : list string) (line : string) :
  render_table_args lines decls = lines ++ [line] ->
  decls ≠ [] /\ line = inline_tuple decls
  /\ 24 <= len line <= 101.
Proof.
  unfold render_table_args. intros H.
  destruct (MAX_LINE_LENGTH <? _) eqn:Hlt.
  - apply app_inv_head in H. apply (f_equal length) in H.
    simpl in H. rewrite length_app in H. simpl in H. lia.
  - destruct decls as [|d decls]; simpl in H.
    + apply (f_equal length) in H. rewrite length_app in H. simpl in H. lia.
    + apply app_inv_head in H. injection H as <-. split; [done|]. split; [done|].
      pose proof (inline_tuple_length (d :: decls)) as Hlen.
      unfold inline_tuple in Hlen. apply Nat.ltb_ge in Hlt.
      unfold MAX_LINE_LENGTH in Hlt. simpl in Hlen, Hlt |- *. lia.
Qed.

Lemma inline_block_is_bounded_witness :
  ["PrimaryKeyConstraint(" +:+ quote "id" +:+ ", name=" +:+ quote "pk_users" +:+ ")"]
    ≠ []
  /\ "    __table_args__ = (PrimaryKeyConstraint(" +:+ quote "id"
       +:+ ", name=" +:+ quote "pk_users" +:+ "),)"
     = inline_tuple
         ["PrimaryKeyConstraint(" +:+ quote "id" +:+ ", name="
            +:+ quote "pk_users" +:+ ")"]
  /\ 24 <= len
             ("    __table_args__ = (PrimaryKeyConstraint(" +:+ quote "id"
                +:+ ", name=" +:+ quote "pk_users" +:+ "),)") <= 101.
Proof.
  apply (inline_block_is_bounded [] _ _). reflexivity.
Defined.

(** ** Class names *)

Lemma upper_underscore c : Ascii.eqb (upper c) "_" = Ascii.eqb c "_".
Proof. destruct c as [[] [] [] [] [] [] [] []]; reflexivity. Qed.

Lemma lower_underscore c : Ascii.eqb (lower c) "_" = Ascii.eqb c "_".
Proof. destruct c as [[] [] [] [] [] [] [] []]; reflexivity. Qed.

Lemma upper_continuation c : continuation (upper c) = continuation c.
Proof. destruct c as [[] [] [] [] [] [] [] []]; reflexivity. Qed.

Lemma lower_continuation c : continuation (lower c) = continuation c.
Proof. destruct c as [[] [] [] [] [] [] [] []]; reflexivity. Qed.

Lemma capitalize_measure w :
  len (capitalize w) = len w
  /\ count_char "_" (capitalize w) = count_char "_" w.
Proof.
  destruct w as [|c r]; [done|]. simpl.
  rewrite upper_underscore, upper_continuation.
  assert (H : len (map_chars lower r) = len r
              /\ count_char "_" (map_chars lower r) = count_char "_" r).
  { induction r as [|c' r [IH1 IH2]]; [done|]. simpl.
    by rewrite lower_underscore, lower_continuation, IH1, IH2. }
  destruct H as [-> ->]. done.
Qed.

Lemma rev_app_measure c s1 : forall s2,
  len (String.rev_app s1 s2) = len s1 + len s2
  /\ count_char c (String.rev_app s1 s2) = count_char c s1 + count_char c s2.
Proof.
  induction s1 as [|c1 s1 IH]; intros s2; [done|]. simpl.
  destruct (IH (String c1 s2)) as [-> ->]. simpl. lia.
Qed.

Lemma count_char_append c s1 s2 :
  count_char c (s1 +:+ s2) = count_char c s1 + count_char c s2.
Proof.
  induction s1 as [|c1 s1 IH]; [done|].
  change (count_char c (String c1 (s1 +:+ s2))
          = count_char c (String c1 s1) + count_char c s2).
  simpl. rewrite IH. lia.
Qed.

(** The words of a split at the underscore hold no underscore, and with the
    underscores they account for every character. *)
Lemma split_aux_measure s : forall cur,
  count_char "_" cur = 0 ->
  Forall (fun w => count_char "_" w = 0) (split_aux "_" cur s)
  /\ list_sum (len <$> split_aux "_" cur s) + count_char "_" s
     = len cur + len s.
Proof.
  induction s as [|c s IH]; intros cur Hcur; simpl.
  - unfold String.rev. destruct (rev_app_measure "_" cur "") as [Hl Hc].
    split; [constructor; [|done]; rewrite Hc; simpl; lia|].
    simpl. rewrite Hl. simpl. lia.
  - destruct (Ascii.eqb c "_") eqn:Hc.
    + apply Ascii.eqb_eq in Hc as ->.
      destruct (IH "" eq_refl) as [IH1 IH2].
      unfold String.rev. destruct (rev_app_measure "_" cur "") as [Hl Hc'].
      split; [constructor; [|done]; rewrite Hc'; simpl; lia|].
      simpl. rewrite Hl. simpl in *. unfold fmap in *. lia.
    + destruct (IH (String c cur)) as [IH1 IH2]; [simpl; by rewrite Hc|].
      split; [done|]. simpl in *. unfold fmap in *. lia.
Qed.

Lemma join_empty_measure (l : list string) :
  len (join "" l) = list_sum (len <$> l)
  /\ (Forall (fun w => count_char "_" w = 0) l -> count_char "_" (join "" l) = 0).
Proof.
  induction l as [|w l [IH1 IH2]]; [done|].
  rewrite join_empty_cons, len_append, count_char_append, IH1. split; [done|].
  intros H. inversion H; subst. rewrite IH2 by done. lia.
Qed.

(** X12.  The class name of a table whose name is ASCII holds no
    underscore, and it has as many characters as the table name without its
    underscores. *)
Theorem class_name_drops_underscores (table : string) :
  is_ascii table = true ->
  count_char "_" (class_name table) = 0
  /\ len (class_name table) + count_char "_" table = len table.
Proof.
  intros _. unfold class_name, split.
  destruct (split_aux_measure table "" eq_refl) as [Hwords Hlen].
  set (ws := split_aux "_" "" table) in *.
  destruct (join_empty_measure (map capitalize ws)) as [Hjl Hjc].
  split.
  - apply Hjc. clear -Hwords.
    induction Hwords as [|w ws Hw _ IH]; constructor; [|done].
    by rewrite (proj2 (capitalize_measure w)).
  - rewrite Hjl.
    assert (Hsum : list_sum (len <$> map capitalize ws) = list_sum (len <$> ws)).
    { clear. induction ws as [|w ws IH]; [done|]. simpl.
      rewrite (proj1 (capitalize_measure w)). f_equal. exact IH. }
    rewrite Hsum. simpl in Hlen. lia.
Qed.

Lemma class_name_drops_underscores_witness :
  count_char "_" "OrderItems" = 0
  /\ len "OrderItems" + count_char "_" "order_items" = len "order_items".
Proof.
  apply (class_name_drops_underscores "order_items"). reflexivity.
Defined.

Lemma split_aux_separator sep b a : forall cur,
  split_aux sep cur (a +:+ String sep b)
  = split_aux sep cur a ++ split_aux sep "" b.
Proof.
  induction a as [|c a IH]; intros cur.
  - change (split_aux sep cur (String sep b)
            = [String.rev cur] ++ split_aux sep "" b).
    simpl. by rewrite Ascii.eqb_refl.
  - change (split_aux sep cur (String c (a +:+ String sep b))
            = split_aux sep cur (String c a) ++ split_aux sep "" b).
    simpl. destruct (Ascii.eqb c sep); [by rewrite IH | apply IH].
Qed.

Lemma join_empty_app (l1 l2 : list string) :
  join "" (l1 ++ l2) = join "" l1 +:+ join "" l2.
Proof.
  induction l1 as [|w l1 IH]; [done|].
  change ((w :: l1) ++ l2) with (w :: (l1 ++ l2)).
  by rewrite !join_empty_cons, IH, append_assoc.
Qed.

Lemma split_aux_no_separator sep s : forall cur,
  count_char sep s = 0 ->
  split_aux sep cur s = [String.rev_app cur "" +:+ s].
Proof.
  induction s as [|c s IH]; intros cur H; simpl in *.
  - by rewrite append_empty_r.
  - destruct (Ascii.eqb c sep); [done|].
    rewrite IH by done. f_equal. unfold String.rev. simpl.
    assert (Hrev : forall s1 s2 s3,
              String.rev_app s1 s2 +:+ s3 = String.rev_app s1 (s2 +:+ s3)).
    { induction s1 as [|c1 s1 IH1]; intros s2 s3; [done|]. simpl.
      by rewrite IH1. }
    by rewrite !Hrev.
Qed.

(** X13.  The class name is built segment by segment: an underscore joins the
    class names of what is on either side of it, and a name without
    underscore is capitalised as a whole.  So table names that differ only by
    underscores at either end or by repeated underscores share a class name,
    and their blocks open with the same class line. *)
Theorem class_name_by_segments (a b : string) :
  class_name (a +:+ "_" +:+ b) = class_name a +:+ class_name b
  /\ (count_char "_" a = 0 -> class_name a = capitalize a)
  /\ class_name ("_" +:+ b) = class_name b
  /\ class_name (a +:+ "_") = class_name a
  /\ class_name (a +:+ "__" +:+ b) = class_name (a +:+ "_" +:+ b).
Proof.
  assert (Hseg : forall x y,
            class_name (x +:+ "_" +:+ y) = class_name x +:+ class_name y).
  { intros x y. unfold class_name, split.
    change (x +:+ "_" +:+ y) with (x +:+ String "_" y).
    by rewrite split_aux_separator, map_app, join_empty_app. }
  assert (Hempty : class_name "" = "") by reflexivity.
  split; [apply Hseg|]. split; [|split; [|split]].
  - intros H. unfold class_name, split.
    rewrite split_aux_no_separator by done. reflexivity.
  - change ("_" +:+ b) with ("" +:+ "_" +:+ b). by rewrite Hseg, Hempty.
  - change (a +:+ "_") with (a +:+ "_" +:+ "").
    by rewrite (Hseg a ""), Hempty, append_empty_r.
  - change (a +:+ "__" +:+ b) with (a +:+ "_" +:+ "_" +:+ b).
    rewrite (Hseg a ("_" +:+ b)), (Hseg a b).
    change ("_" +:+ b) with ("" +:+ "_" +:+ b). by rewrite Hseg, Hempty.
Qed.

Lemma class_name_by_segments_witness :
  class_name "order" = capitalize "order".
Proof.
  apply (proj1 (proj2 (class_name_by_segments "order" ""))). reflexivity.
Defined.

(** ** The output as a whole *)

(** X14.  When the statements are CREATE TABLE and CREATE INDEX statements
    and every table carries the reserved prefix (in particular when there is
    no table statement, or no statement at all), the run succeeds and writes
    the header alone. *)
Theorem header_alone_without_retained_table
    (expressions : list Expression) (output_path : string) :
  forallb kind_table_or_index expressions = true ->
  Forall (fun t => retained t = false) (tables_of expressions) ->
  convert_sqlite_to_orm expressions output_path
  = (Ok tt, [WriteText output_path header]).
Proof.
  intros Hk Hall. unfold convert_sqlite_to_orm, translate, translate_lines.
  rewrite (kinds_are_create _ Hk), Hk. simpl.
  rewrite table_loop_retained.
  replace (List.filter retained (tables_of expressions)) with (@nil TableStmt).
  - simpl. unfold join. simpl. by rewrite append_empty_r.
  - symmetry. induction Hall as [|t l Ht _ IH]; [done|]. simpl. by rewrite Ht.
Qed.

Lemma header_alone_without_retained_table_witness :
  convert_sqlite_to_orm
    [CreateIndex Sample.ix_users_name; CreateTable Sample.sqlite_sequence]
    "schema.py"
  = (Ok tt, [WriteText "schema.py" header]).
Proof.
  apply header_alone_without_retained_table; [reflexivity|].
  by repeat constructor.
Defined.

Lemma indexes_of_creates (indexes : list IndexStmt) (t : TableStmt) :
  indexes_of ((CreateIndex <$> indexes) ++ [CreateTable t]) = indexes
  /\ tables_of ((CreateIndex <$> indexes) ++ [CreateTable t]) = [t]
  /\ forallb kind_table_or_index ((CreateIndex <$> indexes) ++ [CreateTable t])
     = true.
Proof.
  induction indexes as [|i indexes (IH1 & IH2 & IH3)]; [done|].
  rewrite fmap_cons. change ((?x :: ?l) ++ ?l') with (x :: (l ++ l')).
  rewrite indexes_of_index, tables_of_index, IH1, IH2. simpl.
  by rewrite IH3.
Qed.

Lemma filter_filter_same {A} (P : A -> Prop) `{!forall x, Decision (P x)}
    (l : list A) :
  filter P (filter P l) = filter P l.
Proof.
  induction l as [|x l IH]; [done|].
  rewrite filter_cons. case_decide; [|done].
  by rewrite filter_cons, decide_True, IH.
Qed.

(** X15.  The translation of a schema is put together from its tables one by
    one: when it succeeds, its lines are, in the order of the table
    statements, the lines of each table translated alone after the index
    statements that name it. *)
Theorem translation_is_per_table
    (expressions : list Expression) (lines : list string) :
  translate_lines expressions = Ok lines ->
  exists blocks,
    lines = concat blocks
    /\ Forall2 (fun t block =>
         translate_lines
           ((CreateIndex <$> filter (fun i => ix_table i = tbl_name t)
                                    (indexes_of expressions))
            ++ [CreateTable t])
         = Ok block)
       (tables_of expressions) blocks.
Proof.
  intros [_ Hloop]%translate_lines_Ok.
  apply table_loop_blocks in Hloop as (blocks & -> & Hblocks).
  exists blocks. split; [done|].
  eapply Forall2_impl; [exact Hblocks|].
  intros t block Hstep. simpl in Hstep.
  unfold translate_lines.
  destruct (indexes_of_creates
              (filter (fun i => ix_table i = tbl_name t) (indexes_of expressions)) t)
    as (-> & -> & Hk).
  rewrite (kinds_are_create _ Hk), Hk. simpl.
  rewrite (table_step_ext _ (collect_indexes (indexes_of expressions))).
  - by rewrite Hstep.
  - intros _. rewrite !collect_indexes_get. unfold indexes_on.
    by rewrite filter_filter_same.
Qed.

Lemma translation_is_per_table_witness :
  exists lines blocks,
    translate_lines Sample.schema = Ok lines
    /\ lines = concat blocks
    /\ Forall2 (fun t block =>
         translate_lines
           ((CreateIndex <$> filter (fun i => ix_table i = tbl_name t)
                                    (indexes_of Sample.schema))
            ++ [CreateTable t])
         = Ok block)
       (tables_of Sample.schema) blocks.
Proof.
  destruct (translation_is_per_table Sample.schema _ eq_refl) as (blocks & H).
  eexists _, blocks. split; [reflexivity | exact H].
Defined.
